(** * A shallow embedding of the cross-browser test harness

    The development follows the layout of the repository:
    - [usefull/helpers.py]: [analyse_error], [create_csv_file],
      [append_to_csv_file] and the class [TimeMeasure];
    - [usefull/driver.py]: [get_driver], [BaseDriver], [ChromeDriver],
      [FirefoxDriver], [AvailableBrowserDrivers], [AvailableUserAgents];
    - [css_selectors.py]: the selectors of the page under test;
    - [test_expandable.py]: [test_scenario] and [test_expandable];
    - [main.py]: [main].

    Everything outside the repository is an oracle. A worker process owns a
    [World]: it answers every call of the browser automation engine, gives
    the readings of the wall clock, and records calls, readings and printed
    lines in a trace. Exceptions are values: a computation returns [Ok] or
    [Raise], and the world it leaves behind either way. The harness process
    owns the file store; the worker pool is given by the world each worker
    starts in and the time each worker takes.

    Timestamps are exact rationals. Tracebacks are lists of frames,
    outermost first; the frames below a statement of the scenario come with
    the exception the oracle raises. *)

From Stdlib Require Import ZArith QArith Qround String Ascii List Lia Lqa.
From stdpp Require Import gmap strings list fin_maps sorting pretty.

Close Scope Q_scope.
Open Scope string_scope.
Open Scope list_scope.

(** ** Python values and exceptions *)

(** The values that travel through the harness: the cells of a result row,
    the replies of the browser, a whole row (a Python list). [PObj] is an
    opaque object of the automation engine (a [WebElement]). *)
#[warnings="-register-all"]
Inductive pyval : Type :=
| PNone
| PBool (b : bool)
| PInt (z : Z)
| PFloat (q : Q)
| PStr (s : string)
| PObj (id : nat)
| PList (l : list pyval).

(** Python truthiness, as tested by [assert x], [if x:] and [not x]. *)
Definition truthy (v : pyval) : bool :=
  match v with
  | PNone => false
  | PBool b => b
  | PInt z => negb (z =? 0)%Z
  | PFloat q => negb (Qeq_bool q 0)
  | PStr s => negb (String.eqb s "")
  | PObj _ => true
  | PList l => match l with [] => false | _ => true end
  end.

(** One entry of [traceback.extract_tb]: a [FrameSummary]. *)
Record FrameSummary : Type := mkFrame {
  filename : string;
  lineno : Z;
  name : string;
  line : string
}.

(** A raised exception: the name of its class, whether the class derives
    from [Exception] (as opposed to [BaseException] only: KeyboardInterrupt,
    SystemExit, GeneratorExit), and its traceback, outermost frame first. *)
Record exn : Type := mkExn {
  exc_type : string;
  exc_is_Exception : bool;
  exc_tb : list FrameSummary
}.

Inductive result (A : Type) : Type :=
| Ok (a : A)
| Raise (e : exn).
Arguments Ok {A} a.
Arguments Raise {A} e.

Definition IndexError : exn := mkExn "IndexError" true [].
Definition csv_Error : exn := mkExn "Error" true [].
Definition AssertionError : exn := mkExn "AssertionError" true [].
Definition AttributeError : exn := mkExn "AttributeError" true [].

(** An exception that unwinds through a frame gets that frame in front of
    its traceback. *)
Definition through (f : FrameSummary) (e : exn) : exn :=
  mkExn (exc_type e) (exc_is_Exception e) (f :: exc_tb e).

(** ** Numbers: [round(x, 2)] and [int(x)] on timestamps

    Timestamps ([datetime.now().timestamp()]) are modelled as exact
    rationals of seconds. *)

Definition round_half_even (y : Q) : Z :=
  let n := Qfloor y in
  match Qcompare (y - inject_Z n) (1 # 2) with
  | Lt => n
  | Gt => (n + 1)%Z
  | Eq => if Z.even n then n else (n + 1)%Z
  end.

(** [round(x, 2)] *)
Definition py_round2 (x : Q) : Q :=
  Qred (round_half_even (x * 100) # 100).

(** [int(x)]: truncation toward zero. *)
Definition py_int (x : Q) : Z :=
  Z.quot (Qnum x) (Zpos (Qden x)).

(** ** The world of one worker process *)

(** Options of a browser session ([selenium ... Options]): the command line
    arguments and the preferences (a dict). *)
Record Options : Type := mkOptions {
  arguments : list string;
  preferences : gmap string string
}.

(** [Options()] *)
Definition Options_new : Options := mkOptions [] ∅.

Definition add_argument (o : Options) (a : string) : Options :=
  mkOptions (arguments o ++ [a]) (preferences o).

Definition set_preference (o : Options) (k v : string) : Options :=
  mkOptions (arguments o) (<[k := v]> (preferences o)).

(** Calls that leave the process. *)
Inductive Command : Type :=
| NewSession (browser executable_path : string) (opts : Options)
| ImplicitlyWait (seconds : Z)
| SetWindowSize (width height : Z)
| Get (url : string)
| WaitUntil (timeout : Z) (ignored_exceptions : list string) (condition by_ selector : string)
| IsDisplayed (element : pyval)
| Click (element : pyval)
| ParentFrame
| DefaultContent
| ExecuteScript (script : string) (args : list pyval)
| Sleep (seconds : Q)
| Close.

Inductive Event : Type :=
| ECall (c : Command)
| ENow (t : Q)
| EPrint (s : string).

(** [replies n c] is the answer to the [n]-th external call when that call
    is [c]; [clock n] is the [n]-th reading of the wall clock; [src_dir] is
    where the sources are loaded from. [trace] records what happened, oldest
    first. *)
Record World : Type := mkWorld {
  replies : nat -> Command -> result pyval;
  clock : nat -> Q;
  src_dir : string;
  ncalls : nat;
  nreads : nat;
  trace : list Event
}.

Definition M (A : Type) : Type := World -> result A * World.

Definition ret {A} (a : A) : M A := fun w => (Ok a, w).

Definition raise {A} (e : exn) : M A := fun w => (Raise e, w).

Definition bind {A B} (m : M A) (k : A -> M B) : M B :=
  fun w =>
    match m w with
    | (Ok a, w') => k a w'
    | (Raise e, w') => (Raise e, w')
    end.

Declare Scope py_scope.
Delimit Scope py_scope with py.
Notation "x <- m ;; k" := (bind m (fun x => k))
  (at level 100, m at next level, right associativity) : py_scope.
Notation "m ;;; k" := (bind m (fun _ => k))
  (at level 100, right associativity) : py_scope.
Open Scope py_scope.

Definition log (ev : Event) (w : World) : World :=
  mkWorld (replies w) (clock w) (src_dir w) (ncalls w) (nreads w) (trace w ++ [ev]).

(** An external call. *)
Definition call (c : Command) : M pyval :=
  fun w =>
    (replies w (ncalls w) c,
     mkWorld (replies w) (clock w) (src_dir w) (S (ncalls w)) (nreads w)
             (trace w ++ [ECall c])).

(** [datetime.now().timestamp()] *)
Definition now : M Q :=
  fun w =>
    (Ok (clock w (nreads w)),
     mkWorld (replies w) (clock w) (src_dir w) (ncalls w) (S (nreads w))
             (trace w ++ [ENow (clock w (nreads w))])).

(** [print(s)] *)
Definition print (s : string) : M unit :=
  fun w => (Ok tt, log (EPrint s) w).

(** A statement of function [func] of file [file] at line [ln]: an exception
    leaving it carries the frame of the statement. *)
Definition stmt {A} (file : string) (ln : Z) (func text : string) (m : M A) : M A :=
  fun w =>
    match m w with
    | (Ok a, w') => (Ok a, w')
    | (Raise e, w') => (Raise (through (mkFrame (src_dir w +:+ "/" +:+ file) ln func text) e), w')
    end.

(** Number of calls of [Close] in a trace. *)
Fixpoint count_close (tr : list Event) : nat :=
  match tr with
  | [] => 0
  | ECall Close :: tr' => S (count_close tr')
  | _ :: tr' => count_close tr'
  end.

(** ** usefull/helpers.py *)

Definition nl : string := String (ascii_of_nat 10) "".
Definition tab : string := String (ascii_of_nat 9) "".

(** [traceback.extract_tb(tb)[-1]]: [traceback] is the traceback held by
    [sys.exc_info()], a non-empty list whose first entry is the frame of the
    function that caught the exception. *)
Definition analyse_error (traceback : list FrameSummary) (output : bool)
  : M (list pyval) :=
  match last traceback with
  | None => raise IndexError
  | Some fr =>
      (if output then
         print ("Test failed at:" +:+ nl +:+
                tab +:+ "Function " +:+ name fr +:+ " in:" +:+ nl +:+
                tab +:+ tab +:+ filename fr +:+ " line " +:+ pretty (lineno fr) +:+ nl +:+
                tab +:+ "Error: " +:+ line fr)
       else ret tt) ;;;
      ret [PStr (filename fr); PInt (lineno fr); PStr (name fr); PStr (line fr)]
  end.

(** ["%0{width}d" % n] *)
Definition pad (width : nat) (n : nat) : string :=
  let s := pretty n in
  String.concat "" (replicate (width - String.length s) "0") +:+ s.

(** [class TimeMeasure], constructed without argument: its
    [logging_function] is the default [lambda _: None]. *)
Definition logging_function (message : string) : M unit := ret tt.

(** [str(timedelta(seconds=seconds)).split(".")[0]]: a [timedelta] keeps
    days, seconds of the day and microseconds; its text is
    [[D day[s], ]H:MM:SS[.ffffff]], of which the part before the first dot
    is kept. *)
Definition seconds_to_time_string (seconds : Q) : string :=
  let microseconds := round_half_even (seconds * 1000000) in
  let days := (microseconds / 86400000000)%Z in
  let secs := ((microseconds mod 86400000000) / 1000000)%Z in
  let hh := (secs / 3600)%Z in
  let mm := ((secs / 60) mod 60)%Z in
  let ss := (secs mod 60)%Z in
  (if (days =? 0)%Z then ""
   else pretty days +:+ (if (Z.abs days =? 1)%Z then " day, " else " days, ")) +:+
  pretty hh +:+ ":" +:+ pad 2 (Z.to_nat mm) +:+ ":" +:+ pad 2 (Z.to_nat ss).

Record TimeMeasure : Type := mkTimeMeasure {
  start_time : Q;
  end_time : Q;
  _elapsed_seconds : Q
}.

(** [TimeMeasure()] *)
Definition TimeMeasure_new : TimeMeasure := mkTimeMeasure 0 0 0.

(** The property [elapsed_seconds] (getter). *)
Definition elapsed_seconds (self : TimeMeasure) : M (Q * TimeMeasure) :=
  if Qeq_bool (end_time self) 0 then
    t <- now ;;
    let self := mkTimeMeasure (start_time self) (end_time self) (t - start_time self) in
    ret (py_round2 (_elapsed_seconds self), self)
  else
    let self := mkTimeMeasure (start_time self) (end_time self)
                              (end_time self - start_time self) in
    ret (py_round2 (_elapsed_seconds self), self).

(** The setter of [elapsed_seconds]. *)
Definition set_elapsed_seconds (self : TimeMeasure) (elapsed_sec : Q) : TimeMeasure :=
  mkTimeMeasure (start_time self) (end_time self) elapsed_sec.

Definition TimeMeasure_start (self : TimeMeasure) : M (Q * TimeMeasure) :=
  logging_function "Time measure: Started." ;;;
  t <- now ;;
  let self := mkTimeMeasure t (end_time self) (_elapsed_seconds self) in
  ret (start_time self, self).

Definition TimeMeasure_stop (self : TimeMeasure) : M (Q * TimeMeasure) :=
  t <- now ;;
  let self := mkTimeMeasure (start_time self) t (_elapsed_seconds self) in
  let self := set_elapsed_seconds self
                (inject_Z (py_int (end_time self - start_time self))) in
  (* the f-string of the message reads the property *)
  r <- elapsed_seconds self ;;
  let self := snd r in
  logging_function ("Time measure: Ended, total time: " +:+
                    seconds_to_time_string (fst r) +:+ ".") ;;;
  elapsed_seconds self.

(** ** usefull/driver.py *)

(** [os.listdir]: the entries of a directory, or the error of the listing. *)
Definition Listing : Type := string -> result (list string).

(** [os.path.join(directory_path, entry)] *)
Definition path_join (directory_path entry : string) : string :=
  directory_path +:+ "/" +:+ entry.

Definition get_driver (listdir : Listing) (directory_path : string) : result string :=
  match listdir directory_path with
  | Raise e => Raise e
  | Ok drivers =>
      match drivers with
      | [] => Raise IndexError                      (* drivers[0] *)
      | d :: _ => Ok (path_join directory_path d)
      end
  end.

Inductive BrowserKind : Type := Chrome | Firefox.

(** A driver class. Its default [executable_path] is the value
    [get_driver] had when the [def __init__] of the class was executed. *)
Record DriverClass : Type := mkDriverClass {
  cls_kind : BrowserKind;
  cls_executable_path : string
}.

(** The attributes this repository gives to a driver object. *)
Record Driver : Type := mkDriver {
  browser : string;
  options : Options;
  window_size : option (Z * Z)
}.

Definition with_options (self : Driver) (o : Options) : Driver :=
  mkDriver (browser self) o (window_size self).

(** *** class BaseDriver *)

Definition __wait_executor (self : Driver) (implicit_wait_time : Z)
    (ignored_exceptions : list string) (waiting_function by_ selector : string)
  : M pyval :=
  (* WebDriverWait(self, ...).until(waiting_function((by, selector))) *)
  call (WaitUntil implicit_wait_time ignored_exceptions waiting_function by_ selector).

Definition get_element_by_css_selector (self : Driver) (selector : string) : M pyval :=
  __wait_executor self 10 [] "presence_of_element_located" "css selector" selector.

Definition switch_to_iframe_by_css_selector (self : Driver) (selector : string) : M pyval :=
  __wait_executor self 10 [] "frame_to_be_available_and_switch_to_it" "css selector" selector.

Definition switch_back_to_parent_frame (self : Driver) : M pyval :=
  call ParentFrame.

Definition switch_back_to_default_content (self : Driver) : M pyval :=
  call DefaultContent.

(** *** class ChromeDriver *)

(** Setter of the property [headless]. *)
Definition ChromeDriver_set_headless (self : Driver) (is_headless : bool) : M Driver :=
  if is_headless then
    let self := with_options self (add_argument (options self) "headless") in
    let self := with_options self (add_argument (options self) "--window-size=1920,1080") in
    print "WebDriver: Mode = Headless." ;;;
    ret self
  else
    print "WebDriver: Mode = Normal." ;;;
    ret self.

(** [if agent:] on a [str] or [None]. *)
Definition agent_truthy (agent : option string) : bool :=
  match agent with
  | None => false
  | Some a => truthy (PStr a)
  end.

(** Setter of the property [user_agent]. *)
Definition ChromeDriver_set_user_agent (self : Driver) (agent : option string) : Driver :=
  if agent_truthy agent then
    with_options self (add_argument (options self) ("--user-agent=" +:+ default "" agent))
  else self.

(** [ChromeDriver.__init__]; an [Options] object is always truthy. *)
Definition ChromeDriver_init (executable_path : string) (headless : bool)
    (implicit_wait : Z) (user_agent : option string) (opts : option Options)
  : M Driver :=
  let self := mkDriver "chrome" Options_new None in
  self <- match opts with
          | Some o => ret (with_options self o)
          | None =>
              let self := with_options self Options_new in
              let self := ChromeDriver_set_user_agent self user_agent in
              ChromeDriver_set_headless self headless
          end ;;
  (* super().__init__(..., executable_path=executable_path, options=self.options) *)
  call (NewSession "chrome" executable_path (options self)) ;;;
  call (ImplicitlyWait implicit_wait) ;;;
  ret self.

(** *** class FirefoxDriver *)

Definition FirefoxDriver_set_headless (self : Driver) (is_headless : bool) : M Driver :=
  if is_headless then
    let self := with_options self (add_argument (options self) "headless") in
    let self := mkDriver (browser self) (options self) (Some (1920, 1080)%Z) in
    print ("WebDriver " +:+ browser self +:+ ": Mode = Headless.") ;;;
    ret self
  else
    print ("WebDriver " +:+ browser self +:+ ": Mode = Normal.") ;;;
    ret self.

Definition FirefoxDriver_set_user_agent (self : Driver) (agent : option string) : Driver :=
  if agent_truthy agent then
    with_options self
      (set_preference (options self) "general.useragent.override" (default "" agent))
  else self.

Definition FirefoxDriver_init (executable_path : string) (headless : bool)
    (implicit_wait : Z) (user_agent : option string) (opts : option Options)
  : M Driver :=
  let self := mkDriver "firefox" Options_new None in
  self <- match opts with
          | Some o => ret (with_options self o)
          | None =>
              let self := with_options self Options_new in
              self <- FirefoxDriver_set_headless self headless ;;
              ret (FirefoxDriver_set_user_agent self user_agent)
          end ;;
  call (NewSession "firefox" executable_path (options self)) ;;;
  call (ImplicitlyWait implicit_wait) ;;;
  call (SetWindowSize 360 640) ;;;
  ret self.

(** Executing the two [class] statements: the defaults of [executable_path]
    are computed here, once. *)
Definition define_ChromeDriver (listdir : Listing) : result DriverClass :=
  match get_driver listdir "drivers/chrome" with
  | Raise e => Raise e
  | Ok p => Ok (mkDriverClass Chrome p)
  end.

Definition define_FirefoxDriver (listdir : Listing) : result DriverClass :=
  match get_driver listdir "drivers/gecko" with
  | Raise e => Raise e
  | Ok p => Ok (mkDriverClass Firefox p)
  end.

(** The dict [AvailableBrowserDrivers], in insertion order; the value of the
    module once it is imported. *)
Definition AvailableBrowserDrivers (listdir : Listing)
  : result (list (string * DriverClass)) :=
  match define_ChromeDriver listdir with
  | Raise e => Raise e
  | Ok chrome =>
      match define_FirefoxDriver listdir with
      | Raise e => Raise e
      | Ok firefox => Ok [("chrome", chrome); ("firefox", firefox)]
      end
  end.

Definition AvailableUserAgents : list string :=
  ["Mozilla/5.0 (iPhone; U; CPU iPhone OS 3_0 like Mac OS X; en-us) AppleWebKit/528.18 (KHTML, like Gecko) Version/4.0 Mobile/7A341 Safari/528.16"].

(** [driver_class(user_agent=user_agent)]: every other parameter takes its
    default. *)
Definition construct (driver_class : DriverClass) (user_agent : option string) : M Driver :=
  match cls_kind driver_class with
  | Chrome => ChromeDriver_init (cls_executable_path driver_class) false 10 user_agent None
  | Firefox => FirefoxDriver_init (cls_executable_path driver_class) false 15 user_agent None
  end.

(** The tag the constructor of a class stores in [self.browser]. *)
Definition browser_tag (k : BrowserKind) : string :=
  match k with
  | Chrome => "chrome"
  | Firefox => "firefox"
  end.

(** ** css_selectors.py *)

Module selectors.
Definition phone_iframe : string :=
  "#preview-content > div.orientation-enabled.portrait > div.device-container > div > div:nth-child(3) > span > iframe".
Definition expandable_iframe : string :=
  "body > div.ad-placeholder-wrapper.show-overflow > div > div > div > iframe".
Definition modal_iframe : string :=
  "body > div.notranslate.celtra-expanded-ad > iframe".
Definition modal_div : string := "#celtra-object-37".
Definition expendable_button : string := "#celtra-banner".
Definition celtra_logo : string := "#celtra-object-41".
Definition close_modal_button : string :=
  "#celtra-modal > img.celtra-close-button.touchable.celtra-close-button-up".
End selectors.

(** ** test_expandable.py *)

Definition dq : string := String (ascii_of_nat 34) "".

(** [assert c] *)
Definition assert_ (c : bool) : M unit :=
  if c then ret tt else raise AssertionError.

(** [element.method()]: only an object of the engine has the methods of a
    [WebElement]; on any other value ([None], a bool, a number, a string, a
    list) the attribute is missing and AttributeError is raised on the spot.
    [c] is the call the method makes. *)
Definition method_call (element : pyval) (c : Command) : M pyval :=
  match element with
  | PObj _ => call c
  | _ => raise AttributeError
  end.

(** A statement of [test_scenario], with its line and its text. *)
Definition ts {A} (ln : Z) (text : string) (m : M A) : M A :=
  stmt "test_expandable.py" ln "test_scenario" text m.

Definition test_scenario (driver : Driver) : M unit :=
  ts 21 ("driver.get(" +:+ dq +:+
         "http://test.celtra.com/preview/f576e12f#overrides.deviceInfo.deviceType=Phone"
         +:+ dq +:+ ")  # Hardcoded :(")
     (call (Get "http://test.celtra.com/preview/f576e12f#overrides.deviceInfo.deviceType=Phone")) ;;;
  ts 27 "driver.switch_to_iframe_by_css_selector(selectors.expandable_iframe)"
     (switch_to_iframe_by_css_selector driver selectors.expandable_iframe) ;;;
  banner_element <-
    ts 29 "banner_element = driver.get_element_by_css_selector(selectors.expendable_button)"
       (get_element_by_css_selector driver selectors.expendable_button) ;;
  ts 30 "assert banner_element  # Check if not None"
     (assert_ (truthy banner_element)) ;;;
  ts 31 "assert banner_element.is_displayed()  # Check if displayed"
     (v <- method_call banner_element (IsDisplayed banner_element) ;; assert_ (truthy v)) ;;;
  ts 33 "banner_element.click()" (method_call banner_element (Click banner_element)) ;;;
  ts 35 "driver.switch_back_to_parent_frame()" (switch_back_to_parent_frame driver) ;;;
  ts 36 "time.sleep(1.5)  # Modal opening animation takes about 1.5s  (Should not take more)"
     (call (Sleep (3 # 2))) ;;;
  ts 40 "driver.switch_to_iframe_by_css_selector(selectors.modal_iframe)"
     (switch_to_iframe_by_css_selector driver selectors.modal_iframe) ;;;
  modal_div_element <-
    ts 42 "modal_div_element = driver.get_element_by_css_selector(selectors.modal_div)"
       (get_element_by_css_selector driver selectors.modal_div) ;;
  ts 43 "assert modal_div_element.is_displayed()"
     (v <- method_call modal_div_element (IsDisplayed modal_div_element) ;; assert_ (truthy v)) ;;;
  celtra_logo <-
    ts 46 "celtra_logo = driver.get_element_by_css_selector(selectors.celtra_logo)"
       (get_element_by_css_selector driver selectors.celtra_logo) ;;
  ts 47 "assert celtra_logo" (assert_ (truthy celtra_logo)) ;;;
  ts 48 "assert celtra_logo.is_displayed()"
     (v <- method_call celtra_logo (IsDisplayed celtra_logo) ;; assert_ (truthy v)) ;;;
  ts 49 "celtra_logo.click()" (method_call celtra_logo (Click celtra_logo)) ;;;
  ts 51 "assert not celtra_logo.is_displayed()"
     (v <- method_call celtra_logo (IsDisplayed celtra_logo) ;; assert_ (negb (truthy v))) ;;;
  close_modal_button <-
    ts 54 "close_modal_button = driver.get_element_by_css_selector(selectors.close_modal_button)"
       (get_element_by_css_selector driver selectors.close_modal_button) ;;
  ts 55 "assert close_modal_button" (assert_ (truthy close_modal_button)) ;;;
  ts 57 "driver.execute_script('arguments[0].click()', close_modal_button)"
     (call (ExecuteScript "arguments[0].click()" [close_modal_button])) ;;;
  ts 59 "assert not modal_div_element.is_displayed()"
     (v <- method_call modal_div_element (IsDisplayed modal_div_element) ;; assert_ (negb (truthy v))).

(** The [finally] block of [test_expandable]. *)
Definition finally_block (timer : TimeMeasure) : M TimeMeasure :=
  r <- TimeMeasure_stop timer ;;
  call Close ;;;                                   (* driver.close() *)
  ret (snd r).

(** The [except Exception as e] block, up to the value of its [return]. *)
Definition except_block (driver : Driver) (timer : TimeMeasure) (e : exn)
  : M (list pyval * TimeMeasure) :=
  error_data <- analyse_error (exc_tb e) true ;;
  r <- elapsed_seconds timer ;;
  ret ([PInt 0; PStr (browser driver); PFloat (fst r); PStr (exc_type e)] ++ error_data,
       snd r).

(** The frame of the function that catches: the call of the scenario. *)
Definition call_site (w : World) : FrameSummary :=
  mkFrame (src_dir w +:+ "/" +:+ "test_expandable.py") 88 "test_expandable"
          "test_scenario(driver)".

(** The [try] statement of [test_expandable] and the [return] after it. *)
Definition try_statement (driver : Driver) (timer : TimeMeasure) : M (list pyval) :=
  fun w =>
    match stmt "test_expandable.py" 88 "test_expandable" "test_scenario(driver)"
               (test_scenario driver) w with
    | (Ok _, w1) =>
        (timer <- finally_block timer ;;
         r <- elapsed_seconds timer ;;
         ret [PInt 1; PStr (browser driver); PFloat (fst r);
              PStr ""; PStr ""; PStr ""; PStr ""; PStr ""]) w1
    | (Raise e, w1) =>
        if exc_is_Exception e then
          match except_block driver timer e w1 with
          | (Ok (retval, timer), w2) => (finally_block timer ;;; ret retval) w2
          | (Raise e', w2) => (finally_block timer ;;; raise e') w2
          end
        else
          (finally_block timer ;;; raise e) w1
    end.

Definition test_expandable (driver_class : DriverClass) : M (list pyval) :=
  user_agent <- match AvailableUserAgents with       (* AvailableUserAgents[0] *)
                | [] => raise IndexError
                | ua :: _ => ret ua
                end ;;
  driver <- construct driver_class (Some user_agent) ;;
  let timer := TimeMeasure_new in
  r <- TimeMeasure_start timer ;;
  let timer := snd r in
  try_statement driver timer.

(** ** The result log (usefull/helpers.py, continued)

    The file store of the harness process: a path is bound when a regular
    file exists there; a csv file is the list of its rows, a row the list of
    its cells. Directories are taken to exist and files to be writable. *)
Abbreviation Row := (list pyval).
Abbreviation Files := (gmap string (list Row)).

(** [os.path.isfile] *)
Definition isfile (fs : Files) (file_path : string) : bool :=
  bool_decide (is_Some (fs !! file_path)).

Definition create_csv_file (file_path : string) (header : Row) (fs : Files) : Files :=
  if negb (isfile fs file_path) then
    (* open(file_path, "w") ; writer.writerow(header) *)
    <[file_path := [header]]> fs
  else fs.

(** [open(file_path, "a")]: the file is created, empty, when absent. *)
Definition open_append (file_path : string) (fs : Files) : Files :=
  <[file_path := default [] (fs !! file_path)]> fs.

(** [writer.writerow(row)] on the file at [file_path]. *)
Definition writerow (file_path : string) (row : Row) (fs : Files) : Files :=
  <[file_path := default [] (fs !! file_path) ++ [row]]> fs.

(** What [csv] makes of one element of [writerows]: a list is a row, a
    string is a row of its characters, anything else is not iterable. *)
Definition as_row (v : pyval) : result Row :=
  match v with
  | PList cells => Ok cells
  | PStr s => Ok ((fun c => PStr (String c "")) <$> list_ascii_of_string s)
  | _ => Raise csv_Error
  end.

(** [writer.writerows(data)]: rows written before a failing element stay. *)
Fixpoint writerows (file_path : string) (data : list pyval) (fs : Files)
  : result unit * Files :=
  match data with
  | [] => (Ok tt, fs)
  | v :: data' =>
      match as_row v with
      | Raise e => (Raise e, fs)
      | Ok row => writerows file_path data' (writerow file_path row fs)
      end
  end.

Definition append_to_csv_file (file_path : string) (data : list pyval) (fs : Files)
  : result unit * Files :=
  let fs := open_append file_path fs in
  match data with
  | [] => (Raise IndexError, fs)                       (* data[0] *)
  | PList _ :: _ => writerows file_path data fs        (* type(data[0]) is list *)
  | _ :: _ => (Ok tt, writerow file_path data fs)
  end.

(** ** main.py *)

(** [date.today()] and its [strftime("%d_%m_%Y")]. *)
Record date : Type := mkDate { year : nat; month : nat; day : nat }.

Definition strftime_d_m_Y (d : date) : string :=
  pad 2 (day d) +:+ "_" +:+ pad 2 (month d) +:+ "_" +:+ pad 4 (year d).

(** [ProcessPoolExecutor.map]: one task per element, each in a worker
    process; [fn k x] is what task [k] returns or raises there. The tasks
    complete in the order of their finishing times; every result is stored in
    the future of its task, and the futures are then read in the order of
    submission, the first exception ending the reading. *)
Definition finishes_first (finish : nat -> nat) (i j : nat) : Prop :=
  finish i <= finish j.

#[global] Instance finishes_first_dec finish i j : Decision (finishes_first finish i j) :=
  decide (finish i <= finish j).

Definition completion_order (finish : nat -> nat) (n : nat) : list nat :=
  merge_sort (finishes_first finish) (seq 0 n).

Definition run_tasks {A R} (fn : nat -> A -> result R) (xs : list A)
    (order : list nat) : gmap nat (result R) :=
  foldl (fun futures k =>
           match xs !! k with
           | Some x => <[k := fn k x]> futures
           | None => futures
           end) ∅ order.

Fixpoint gather {R} (futures : gmap nat (result R)) (ks : list nat)
  : option (result (list R)) :=
  match ks with
  | [] => Some (Ok [])
  | k :: ks' =>
      match futures !! k with
      | None => None                                   (* never completes *)
      | Some (Raise e) => Some (Raise e)
      | Some (Ok r) =>
          match gather futures ks' with
          | None => None
          | Some (Raise e) => Some (Raise e)
          | Some (Ok rs) => Some (Ok (r :: rs))
          end
      end
  end.

Definition executor_map {A R} (fn : nat -> A -> result R) (xs : list A)
    (finish : nat -> nat) : option (result (list R)) :=
  gather (run_tasks fn xs (completion_order finish (length xs)))
         (seq 0 (length xs)).

(** What the harness process meets: the date, the world each worker process
    starts in ([spawn i k]: iteration [i], task [k]) and the time each worker
    takes. *)
Record Harness : Type := mkHarness {
  today : date;
  spawn : nat -> nat -> World;
  finish : nat -> nat -> nat
}.

Definition header : Row :=
  [PStr "Passed"; PStr "Browser"; PStr "Execution time"; PStr "Error";
   PStr "Filename"; PStr "Line"; PStr "Function"; PStr "Error code"].

Definition log_filename (h : Harness) : string :=
  "test_history/" +:+ "test_expandable" +:+ "_" +:+ strftime_d_m_Y (today h) +:+ ".csv".

(** The task of iteration [i] for the [k]-th driver class: the value
    [test_expandable] returns, a Python list. *)
Definition worker (h : Harness) (i k : nat) (driver_class : DriverClass) : result pyval :=
  match fst (test_expandable driver_class (spawn h i k)) with
  | Ok record => Ok (PList record)
  | Raise e => Raise e
  end.

(** The body of [for _ in range(repeat)], from iteration [i] on, [n]
    iterations to go. [None]: a worker never finishes. *)
Fixpoint main_loop (h : Harness) (drivers : list DriverClass) (i n : nat) (fs : Files)
  : option (result unit * Files) :=
  match n with
  | O => Some (Ok tt, fs)
  | S n' =>
      match executor_map (worker h i) drivers (finish h i) with
      | None => None
      | Some (Raise e) => Some (Raise e, fs)
      | Some (Ok res) =>
          match append_to_csv_file (log_filename h) res fs with
          | (Raise e, fs') => Some (Raise e, fs')
          | (Ok _, fs') => main_loop h drivers (S i) n' fs'
          end
      end
  end.

(** [drivers = list(AvailableBrowserDrivers.values())] *)
Definition drivers_of (available : list (string * DriverClass)) : list DriverClass :=
  snd <$> available.

Definition main (h : Harness) (drivers : list DriverClass) (repeat : Z) (fs : Files)
  : option (result unit * Files) :=
  let fs := create_csv_file (log_filename h) header fs in
  main_loop h drivers 0 (Z.to_nat repeat) fs.

(** ** Concrete worlds

    Small worlds on which the definitions are run: a page that behaves, a
    page whose banner never shows up, and an interrupt during the pause. *)

Definition TimeoutException : exn :=
  mkExn "TimeoutException" true
    [mkFrame "/app/usefull/driver.py" 84 "get_element_by_css_selector"
             "element = self.__wait_executor(";
     mkFrame "/app/usefull/driver.py" 59 "__wait_executor" "element = WebDriverWait(";
     mkFrame "/usr/lib/python3/site-packages/selenium/webdriver/support/wait.py" 95
             "until" "raise TimeoutException(message, screen, stacktrace)"].

Definition KeyboardInterrupt : exn := mkExn "KeyboardInterrupt" false [].

(** The page behaves; [off] external calls precede the [Get] beyond the two
    every constructor makes. *)
Definition good_replies (off : nat) (n : nat) (c : Command) : result pyval :=
  match c with
  | WaitUntil _ _ "presence_of_element_located" _ sel => Ok (PObj (String.length sel))
  | WaitUntil _ _ _ _ _ => Ok (PBool true)
  | IsDisplayed _ => Ok (PBool (n <? off + 14)%nat)
  | _ => Ok PNone
  end.

Definition banner_missing_replies (n : nat) (c : Command) : result pyval :=
  match c with
  | WaitUntil _ _ "presence_of_element_located" _ _ => Raise TimeoutException
  | _ => good_replies 0 n c
  end.

Definition interrupted_replies (n : nat) (c : Command) : result pyval :=
  match c with
  | Sleep _ => Raise KeyboardInterrupt
  | _ => good_replies 0 n c
  end.

Definition no_session_replies (n : nat) (c : Command) : result pyval :=
  match c with
  | NewSession _ _ _ => Raise (mkExn "WebDriverException" true [])
  | _ => Ok PNone
  end.

(** A clock that starts at 1000 s and advances 3.57 s between readings. *)
Definition steady_clock (n : nat) : Q :=
  Qred (1000 + inject_Z (Z.of_nat n) * (357 # 100)).

Definition world_of (r : nat -> Command -> result pyval) : World :=
  mkWorld r steady_clock "/app" 0 0 [].

(** A clock that is set back by one second between readings, and a clock
    whose second reading is the epoch itself. *)
Definition backward_clock (n : nat) : Q := Qred (1000 - inject_Z (Z.of_nat n)).

Definition epoch_clock (n : nat) : Q :=
  match n with
  | 0 => 5
  | 1 => 0
  | _ => Qred (10 + inject_Z (Z.of_nat n))
  end.

Definition world_with_clock (c : nat -> Q) : World :=
  mkWorld (good_replies 0) c "/app" 0 0 [].

Definition good_world (off : nat) : World := world_of (good_replies off).

Definition chrome_class : DriverClass := mkDriverClass Chrome "drivers/chrome/chromedriver".
Definition firefox_class : DriverClass := mkDriverClass Firefox "drivers/gecko/geckodriver".

Definition good_harness : Harness :=
  mkHarness (mkDate 2022 3 7) (fun _ k => good_world k) (fun _ k => 5 - k).

(** ** Vocabulary of the properties *)

(** Events other than a reading of the clock and the closing of the
    session. *)
Definition calm (ev : Event) : Prop :=
  match ev with
  | ENow _ => False
  | ECall Close => False
  | _ => True
  end.

(** [w'] continues [w]: the oracles are the same, the clock was not read, and
    the trace grew by calm events only. *)
Definition continues (w w' : World) : Prop :=
  replies w' = replies w /\ clock w' = clock w /\ src_dir w' = src_dir w /\
  nreads w' = nreads w /\
  exists tr, trace w' = trace w ++ tr /\ Forall calm tr.

Definition quiet {A} (m : M A) : Prop := forall w, continues w (snd (m w)).

(** Computations that only read the clock: they return, and leave the
    oracles and the number of closings as they were. *)
Definition timing {A} (m : M A) : Prop :=
  forall w, (exists a, fst (m w) = Ok a) /\
            replies (snd (m w)) = replies w /\
            count_close (trace (snd (m w))) = count_close (trace w).

(** The timer once started, and the world after one reading of the clock. *)
Definition started (w : World) : TimeMeasure :=
  mkTimeMeasure (clock w (nreads w)) 0 0.

Definition tick (w : World) : World := snd (now w).

(** The contract of the session's [close] (spec, 4.1): it has no failure
    mode. *)
Definition close_safe (w : World) : Prop :=
  forall n, exists v, replies w n Close = Ok v.

Definition the_user_agent : option string := head AvailableUserAgents.

(** A driver from nothing: the [class] statement is executed, then the class
    is called as [test_expandable] calls it. *)
Definition build_driver (listdir : Listing) (k : BrowserKind) : M Driver :=
  fun w =>
    match (match k with
           | Chrome => define_ChromeDriver listdir
           | Firefox => define_FirefoxDriver listdir
           end) with
    | Raise e => (Raise e, w)
    | Ok driver_class => construct driver_class the_user_agent w
    end.

(** Computations that leave the number of closings as it was. *)
Definition keeps {A} (m : M A) : Prop :=
  forall w, count_close (trace (snd (m w))) = count_close (trace w).

Definition failure_message (fr : FrameSummary) : string :=
  "Test failed at:" +:+ nl +:+
  tab +:+ "Function " +:+ name fr +:+ " in:" +:+ nl +:+
  tab +:+ tab +:+ filename fr +:+ " line " +:+ pretty (lineno fr) +:+ nl +:+
  tab +:+ "Error: " +:+ line fr.

Definition chrome_driver : Driver :=
  mkDriver "chrome"
    (mkOptions ["--user-agent=" +:+ default "" the_user_agent] ∅) None.

Definition frame_29 : FrameSummary :=
  mkFrame "/app/test_expandable.py" 29 "test_scenario"
    "banner_element = driver.get_element_by_css_selector(selectors.expendable_button)".

Definition frame_36 : FrameSummary :=
  mkFrame "/app/test_expandable.py" 36 "test_scenario"
    "time.sleep(1.5)  # Modal opening animation takes about 1.5s  (Should not take more)".

(** The tasks run one after the other, in the order of submission. *)
Fixpoint sequential {A R} (fn : nat -> A -> result R) (k : nat) (xs : list A)
  : result (list R) :=
  match xs with
  | [] => Ok []
  | x :: xs' =>
      match fn k x with
      | Raise e => Raise e
      | Ok r =>
          match sequential fn (S k) xs' with
          | Raise e => Raise e
          | Ok rs => Ok (r :: rs)
          end
      end
  end.

(** A row as a worker returns it. *)
Definition is_record (row : Row) : Prop :=
  exists b tag t rest,
    row = PInt b :: PStr tag :: PFloat t :: rest /\ (b = 0 \/ b = 1)%Z.

(** The elements of a batch are rows. *)
Fixpoint rows_of (data : list pyval) : option (list Row) :=
  match data with
  | [] => Some []
  | PList row :: data' =>
      match rows_of data' with
      | Some rows => Some (row :: rows)
      | None => None
      end
  | _ :: _ => None
  end.

(** Files reached from [fs] by one run of the harness after the other, all
    on the log [p] (the runs of one day), whether they return or raise. *)
Inductive runs (p : string) (ds : list DriverClass) : Files -> Files -> Prop :=
| runs_one h N r fs fs' :
    log_filename h = p ->
    main h ds N fs = Some (r, fs') ->
    runs p ds fs fs'
| runs_more h N r fs fs1 fs' :
    runs p ds fs fs1 ->
    log_filename h = p ->
    main h ds N fs1 = Some (r, fs') ->
    runs p ds fs fs'.

(** The log holds the header, once, and then records. *)
Definition log_ok (p : string) (fs : Files) : Prop :=
  exists rows, fs !! p = Some (header :: rows) /\ Forall is_record rows.

Definition two_drivers : list DriverClass := [chrome_class; firefox_class].

Definition files_after (N : Z) : Files :=
  match main good_harness two_drivers N ∅ with
  | Some (_, fs) => fs
  | None => ∅
  end.

(** The files after a second run of the harness on the same day, of one
    iteration, on the log the two iterations of the first run have left. *)
Definition files_after_again : Files :=
  match main good_harness two_drivers 1 (files_after 2) with
  | Some (_, fs) => fs
  | None => ∅
  end.

Definition one_binary_each : Listing := fun _ => Ok ["driver"].

Definition registered : list (string * DriverClass) :=
  [("chrome", mkDriverClass Chrome "drivers/chrome/driver");
   ("firefox", mkDriverClass Firefox "drivers/gecko/driver")].

Definition files_after_one : Files :=
  match main good_harness (drivers_of registered) 1 ∅ with
  | Some (_, fs) => fs
  | None => ∅
  end.

(** ** Vocabulary of the further properties *)

(** The session cannot be configured: the call after its start fails. *)
Definition setup_fails_replies (n : nat) (c : Command) : result pyval :=
  match c with
  | ImplicitlyWait _ => Raise (mkExn "WebDriverException" true [])
  | _ => Ok PNone
  end.

(** The arguments and the preference the setters of the two classes add. *)
Definition user_agent_arguments (agent : option string) : list string :=
  if agent_truthy agent then ["--user-agent=" +:+ default "" agent] else [].

Definition headless_arguments (headless : bool) : list string :=
  if headless then ["headless"; "--window-size=1920,1080"] else [].

Definition user_agent_preferences (agent : option string) : gmap string string :=
  if agent_truthy agent then {["general.useragent.override" := default "" agent]} else ∅.

(** The lines of the statements of [test_scenario], and those of its
    [assert] statements. *)
Definition scenario_lines : list Z :=
  [21; 27; 29; 30; 31; 33; 35; 36; 40; 42; 43; 46; 47; 48; 49; 51; 54; 55; 57; 59]%Z.

Definition assert_lines : list Z := [30; 31; 43; 47; 48; 51; 55; 59]%Z.

(** A frame of [test_scenario], in the sources at [src]. *)
Definition scenario_frame (src : string) (lines : list Z) (f : FrameSummary) : Prop :=
  filename f = src +:+ "/" +:+ "test_expandable.py" /\
  name f = "test_scenario" /\
  lineno f ∈ lines.

(** Exceptions leaving [m] carry a frame of the scenario on top. *)
Definition framed {A} (src : string) (m : M A) : Prop :=
  forall w e w', src_dir w = src -> m w = (Raise e, w') ->
    exists f rest, exc_tb e = f :: rest /\ scenario_frame src scenario_lines f.

(** The engine and the pause never raise. *)
Definition obedient (w : World) : Prop :=
  forall n c, exists v, replies w n c = Ok v.

(** The statements of [test_scenario] that call a method of a value a wait
    has returned. *)
Definition method_lines : list Z := [31; 33; 43; 48; 49; 51; 59]%Z.

(** [e] is raised by a statement of [test_scenario] itself: a failed
    [assert], or a method looked up on a value that is no element. *)
Definition own_failure (src : string) (e : exn) : Prop :=
  exists f,
    (e = through f AssertionError /\ scenario_frame src assert_lines f) \/
    (e = through f AttributeError /\ scenario_frame src method_lines f).

(** With an obedient engine, [m] raises by its own statements only. *)
Definition asserting {A} (src : string) (m : M A) : Prop :=
  forall w e w', src_dir w = src -> obedient w -> m w = (Raise e, w') ->
    own_failure src e.

(** [m] makes at most [n] external calls, and [n] when it returns. *)
Definition calls {A} (n : nat) (m : M A) : Prop :=
  forall w, ncalls (snd (m w)) <= ncalls w + n /\
            (forall a, fst (m w) = Ok a -> ncalls (snd (m w)) = ncalls w + n).

(** The logo stays on the page after it is clicked. *)
Definition logo_stays_replies (n : nat) (c : Command) : result pyval :=
  match c with
  | IsDisplayed _ => Ok (PBool true)
  | WaitUntil _ _ _ _ selector => Ok (PObj (String.length selector))
  | _ => Ok PNone
  end.

(** The wait for the modal returns [None] instead of an element. *)
Definition modal_none_replies (n : nat) (c : Command) : result pyval :=
  match c with
  | IsDisplayed _ => Ok (PBool true)
  | WaitUntil _ _ _ _ selector =>
      if String.eqb selector selectors.modal_div then Ok PNone
      else Ok (PObj (String.length selector))
  | _ => Ok PNone
  end.

(** [m] makes no external call and leaves the oracle of the engine as it
    was, whether it returns or raises. *)
Definition still {A} (m : M A) : Prop :=
  forall w, ncalls (snd (m w)) = ncalls w /\ replies (snd (m w)) = replies w.

(** The scenario runs well and the session cannot be closed. *)
Definition close_fails_replies (n : nat) (c : Command) : result pyval :=
  match c with
  | Close => Raise (mkExn "InvalidSessionIdException" true [])
  | _ => good_replies 0 n c
  end.

(** In the second iteration the firefox session cannot be started. *)
Definition failing_harness : Harness :=
  mkHarness (mkDate 2022 3 7)
    (fun i k => if (i =? 1)%nat && (k =? 1)%nat then world_of no_session_replies
                else good_world k)
    (fun _ k => k).

(** * Properties *)

(** ** Rounding *)

Section Rounding.
Local Open Scope Q_scope.

Lemma round_half_even_bounds (y : Q) :
  inject_Z (round_half_even y) - (1 # 2) <= y /\
  y <= inject_Z (round_half_even y) + (1 # 2).
Proof.
  unfold round_half_even.
  pose proof (Qfloor_le y) as Hlo.
  pose proof (Qlt_floor y) as Hhi.
  set (n := Qfloor y) in *.
  assert (Hn1 : inject_Z (n + 1) == inject_Z n + 1)
    by (rewrite inject_Z_plus; reflexivity).
  rewrite Hn1 in Hhi.
  destruct (Qcompare (y - inject_Z n) (1 # 2)) eqn:Hc.
  - apply Qeq_alt in Hc.
    destruct (Z.even n).
    + split; lra.
    + rewrite Hn1. split; lra.
  - apply Qlt_alt in Hc. split; lra.
  - apply Qgt_alt in Hc. rewrite Hn1. split; lra.
Qed.

Lemma round_half_even_nonneg (y : Q) : 0 <= y -> (0 <= round_half_even y)%Z.
Proof.
  intros Hy. unfold round_half_even.
  assert (Hf : (0 <= Qfloor y)%Z).
  { replace 0%Z with (Qfloor 0) by reflexivity. now apply Qfloor_resp_le. }
  destruct (Qcompare _ _); [destruct (Z.even _) | |]; lia.
Qed.

(** [round(x, 2)] is a whole number of hundredths, at most half a
    hundredth away from [x]. *)
Lemma py_round2_hundredths (x : Q) :
  py_round2 x == round_half_even (x * 100) # 100.
Proof. unfold py_round2. apply Qred_correct. Qed.

Lemma py_round2_close (x : Q) :
  x - (1 # 200) <= py_round2 x /\ py_round2 x <= x + (1 # 200).
Proof.
  rewrite py_round2_hundredths.
  destruct (round_half_even_bounds (x * 100)) as [H1 H2].
  set (n := round_half_even (x * 100)) in *.
  assert (Hn : n # 100 == inject_Z n / 100).
  { unfold Qeq, Qdiv, Qmult, Qinv, inject_Z. simpl. lia. }
  rewrite Hn. split.
  - apply Qle_shift_div_l; [reflexivity | lra].
  - apply Qle_shift_div_r; [reflexivity | lra].
Qed.

Lemma py_round2_nonneg (x : Q) : 0 <= x -> 0 <= py_round2 x.
Proof.
  intros Hx. rewrite py_round2_hundredths.
  assert (H : (0 <= round_half_even (x * 100))%Z).
  { apply round_half_even_nonneg. nra. }
  unfold Qle. simpl. lia.
Qed.
End Rounding.

(** ** Footprints of computations *)

Lemma continues_refl w : continues w w.
Proof.
  repeat split. exists []. split; [by rewrite app_nil_r | constructor].
Qed.

Lemma continues_trans w1 w2 w3 :
  continues w1 w2 -> continues w2 w3 -> continues w1 w3.
Proof.
  intros (Hr & Hc & Hs & Hn & tr & Ht & Hf) (Hr' & Hc' & Hs' & Hn' & tr' & Ht' & Hf').
  repeat split; try congruence.
  exists (tr ++ tr'). split.
  - rewrite Ht', Ht. by rewrite app_assoc.
  - by apply Forall_app.
Qed.

Lemma count_close_app tr1 tr2 :
  count_close (tr1 ++ tr2) = count_close tr1 + count_close tr2.
Proof.
  induction tr1 as [|ev tr1 IH]; [done |].
  destruct ev as [c | |]; simpl; [destruct c |..]; simpl; lia.
Qed.

Lemma count_close_calm tr : Forall calm tr -> count_close tr = 0.
Proof.
  induction 1 as [|ev tr Hev _ IH]; [done |].
  destruct ev as [c | |]; simpl in *; [destruct c |..]; simpl in *; done.
Qed.

Lemma continues_count_close w w' :
  continues w w' -> count_close (trace w') = count_close (trace w).
Proof.
  intros (_ & _ & _ & _ & tr & -> & Hf).
  rewrite count_close_app, (count_close_calm tr Hf). lia.
Qed.

Lemma quiet_ret {A} (a : A) : quiet (ret a).
Proof. intros w. apply continues_refl. Qed.

Lemma quiet_raise {A} (e : exn) : quiet (@raise A e).
Proof. intros w. apply continues_refl. Qed.

Lemma quiet_bind {A B} (m : M A) (k : A -> M B) :
  quiet m -> (forall a, quiet (k a)) -> quiet (bind m k).
Proof.
  intros Hm Hk w. unfold bind. specialize (Hm w).
  destruct (m w) as [[a | e] w']; simpl in *; [| done].
  eapply continues_trans; [done | apply Hk].
Qed.

Lemma quiet_stmt {A} file ln func text (m : M A) :
  quiet m -> quiet (stmt file ln func text m).
Proof.
  intros Hm w. unfold stmt. specialize (Hm w).
  by destruct (m w) as [[a | e] w'].
Qed.

Lemma quiet_call c : calm (ECall c) -> quiet (call c).
Proof.
  intros Hc w. repeat split. exists [ECall c]. split; [done |].
  by constructor.
Qed.

Lemma quiet_print s : quiet (print s).
Proof.
  intros w. repeat split. exists [EPrint s]. split; [done |].
  by constructor.
Qed.

Lemma quiet_assert c : quiet (assert_ c).
Proof. destruct c; [apply quiet_ret | apply quiet_raise]. Qed.

Lemma quiet_method_call element c : calm (ECall c) -> quiet (method_call element c).
Proof.
  intros Hc. destruct element; simpl; try apply quiet_raise. by apply quiet_call.
Qed.

Ltac quiet_step :=
  first [ apply quiet_ret | apply quiet_raise | apply quiet_print
        | apply quiet_assert | apply quiet_stmt
        | apply quiet_call; exact I
        | apply quiet_method_call; exact I
        | apply quiet_bind; [| intros ?] ].

Ltac quiet_tac := repeat quiet_step.

Lemma quiet_test_scenario driver : quiet (test_scenario driver).
Proof.
  unfold test_scenario, ts, get_element_by_css_selector,
    switch_to_iframe_by_css_selector, switch_back_to_parent_frame, __wait_executor.
  quiet_tac.
Qed.

Lemma quiet_ChromeDriver_init path headless wait agent opts :
  quiet (ChromeDriver_init path headless wait agent opts).
Proof.
  unfold ChromeDriver_init, ChromeDriver_set_headless.
  destruct opts, headless; quiet_tac.
Qed.

Lemma quiet_FirefoxDriver_init path headless wait agent opts :
  quiet (FirefoxDriver_init path headless wait agent opts).
Proof.
  unfold FirefoxDriver_init, FirefoxDriver_set_headless.
  destruct opts, headless; quiet_tac.
Qed.

Lemma quiet_construct cls agent : quiet (construct cls agent).
Proof.
  unfold construct. destruct (cls_kind cls);
    [apply quiet_ChromeDriver_init | apply quiet_FirefoxDriver_init].
Qed.

Lemma quiet_analyse_error tb output : quiet (analyse_error tb output).
Proof.
  unfold analyse_error. destruct (last tb); [| apply quiet_raise].
  destruct output; quiet_tac.
Qed.

(** ** The timer *)

Lemma timing_ret {A} (a : A) : timing (ret a).
Proof. intros w. simpl. eauto. Qed.

Lemma timing_now : timing now.
Proof.
  intros w. simpl. split; [eauto |]. split; [done |].
  rewrite count_close_app. simpl. lia.
Qed.

Lemma timing_bind {A B} (m : M A) (k : A -> M B) :
  timing m -> (forall a, timing (k a)) -> timing (bind m k).
Proof.
  intros Hm Hk w. unfold bind.
  destruct (Hm w) as ([a Ha] & Hr & Hc).
  destruct (m w) as [r w']. simpl in *. subst r.
  destruct (Hk a w') as (Ha' & Hr' & Hc').
  split; [done |]. split; congruence.
Qed.

Lemma timing_elapsed_seconds self : timing (elapsed_seconds self).
Proof.
  unfold elapsed_seconds. destruct (Qeq_bool (end_time self) 0).
  - apply timing_bind; [apply timing_now | intros t; apply timing_ret].
  - apply timing_ret.
Qed.

Lemma timing_start self : timing (TimeMeasure_start self).
Proof.
  unfold TimeMeasure_start.
  apply timing_bind; [apply timing_ret | intros _].
  apply timing_bind; [apply timing_now | intros t; apply timing_ret].
Qed.

Lemma timing_stop self : timing (TimeMeasure_stop self).
Proof.
  unfold TimeMeasure_stop.
  apply timing_bind; [apply timing_now | intros t].
  apply timing_bind; [apply timing_elapsed_seconds | intros r].
  apply timing_bind; [apply timing_ret | intros _].
  apply timing_elapsed_seconds.
Qed.

Example seconds_to_time_string_short :
  seconds_to_time_string (357 # 100) = "0:00:03".
Proof. vm_compute. reflexivity. Qed.

Example seconds_to_time_string_days :
  seconds_to_time_string 200000 = "2 days, 7:33:20" /\
  seconds_to_time_string (-1) = "-1 day, 23:59:59".
Proof. split; vm_compute; reflexivity. Qed.

Example log_filename_of_a_day :
  log_filename good_harness = "test_history/test_expandable_07_03_2022.csv".
Proof. vm_compute. reflexivity. Qed.

Lemma start_eq w :
  TimeMeasure_start TimeMeasure_new w =
  (Ok (clock w (nreads w), started w), tick w).
Proof. reflexivity. Qed.

(** Before [stop], the property reads the clock. *)
Lemma elapsed_seconds_running t0 el w :
  elapsed_seconds (mkTimeMeasure t0 0 el) w =
  (Ok (py_round2 (clock w (nreads w) - t0),
       mkTimeMeasure t0 0 (clock w (nreads w) - t0)%Q), tick w).
Proof. reflexivity. Qed.

(** After [stop], the property is recomputed from the two timestamps:
    whatever the setter stored is overwritten. *)
Lemma elapsed_seconds_stopped t0 t1 el w :
  Qeq_bool t1 0 = false ->
  elapsed_seconds (mkTimeMeasure t0 t1 el) w =
  (Ok (py_round2 (t1 - t0), mkTimeMeasure t0 t1 (t1 - t0)%Q), w).
Proof. intros H. unfold elapsed_seconds. simpl. by rewrite H. Qed.

Lemma stop_eq t0 t1' el w :
  Qeq_bool (clock w (nreads w)) 0 = false ->
  TimeMeasure_stop (mkTimeMeasure t0 t1' el) w =
  (Ok (py_round2 (clock w (nreads w) - t0),
       mkTimeMeasure t0 (clock w (nreads w)) (clock w (nreads w) - t0)%Q), tick w).
Proof.
  intros H. unfold TimeMeasure_stop, bind. simpl.
  unfold set_elapsed_seconds. simpl.
  rewrite (elapsed_seconds_stopped _ _ _ _ H). simpl.
  by rewrite (elapsed_seconds_stopped _ _ _ _ H).
Qed.

(** ** The outcome recorder *)

Lemma test_expandable_eq cls w :
  test_expandable cls w =
  match construct cls the_user_agent w with
  | (Ok driver, w1) => try_statement driver (started w1) (tick w1)
  | (Raise e, w1) => (Raise e, w1)
  end.
Proof.
  unfold test_expandable, the_user_agent, AvailableUserAgents, bind, ret. simpl head.
  destruct (construct cls _ w) as [[d | e] w1]; reflexivity.
Qed.

Lemma construct_browser cls agent w driver w1 :
  construct cls agent w = (Ok driver, w1) ->
  browser driver = browser_tag (cls_kind cls).
Proof.
  unfold construct. destruct (cls_kind cls); simpl.
  - unfold ChromeDriver_init, ChromeDriver_set_user_agent, ChromeDriver_set_headless,
      bind, ret, print, call.
    destruct (agent_truthy agent); simpl;
      repeat match goal with
             | |- context [match replies ?w ?n ?c with _ => _ end] =>
                 destruct (replies w n c)
             end; intros [= <- _]; reflexivity.
  - unfold FirefoxDriver_init, FirefoxDriver_set_user_agent, FirefoxDriver_set_headless,
      bind, ret, print, call.
    destruct (agent_truthy agent); simpl;
      repeat match goal with
             | |- context [match replies ?w ?n ?c with _ => _ end] =>
                 destruct (replies w n c)
             end; intros [= <- _]; reflexivity.
Qed.

Lemma keeps_quiet {A} (m : M A) : quiet m -> keeps m.
Proof. intros H w. apply continues_count_close, H. Qed.

Lemma keeps_timing {A} (m : M A) : timing m -> keeps m.
Proof. intros H w. apply H. Qed.

Lemma keeps_bind {A B} (m : M A) (k : A -> M B) :
  keeps m -> (forall a, keeps (k a)) -> keeps (bind m k).
Proof.
  intros Hm Hk w. unfold bind. specialize (Hm w).
  destruct (m w) as [[a | e] w']; simpl in *; [| done].
  rewrite (Hk a w'). done.
Qed.

Lemma keeps_except_block driver timer e : keeps (except_block driver timer e).
Proof.
  unfold except_block.
  apply keeps_bind; [apply keeps_quiet, quiet_analyse_error | intros error_data].
  apply keeps_bind; [apply keeps_timing, timing_elapsed_seconds | intros r].
  apply keeps_quiet, quiet_ret.
Qed.

(** The [finally] block closes the session once, whatever follows it leaves
    the count alone. *)
Lemma finally_block_closes_once {A} timer (k : TimeMeasure -> M A) w :
  (forall tm, keeps (k tm)) ->
  count_close (trace (snd (bind (finally_block timer) k w))) =
  count_close (trace w) + 1.
Proof.
  intros Hk. unfold finally_block, bind.
  destruct (timing_stop timer w) as ([r Hr] & _ & Hc).
  destruct (TimeMeasure_stop timer w) as [r' w1]. simpl in Hr, Hc. subst r'.
  unfold call. simpl.
  destruct (replies w1 (ncalls w1) Close) as [v | e]; simpl.
  - rewrite (Hk (snd r)). simpl. rewrite count_close_app, Hc. simpl. lia.
  - rewrite count_close_app, Hc. simpl. lia.
Qed.

(** When [close] keeps its contract the [finally] block runs to its end. *)
Lemma finally_block_returns timer w :
  close_safe w ->
  exists timer' w', finally_block timer w = (Ok timer', w') /\ replies w' = replies w.
Proof.
  intros Hsafe. unfold finally_block, bind.
  destruct (timing_stop timer w) as ([r Hr] & Hrep & _).
  destruct (TimeMeasure_stop timer w) as [r' w1]. simpl in Hr, Hrep. subst r'.
  unfold call. simpl.
  destruct (Hsafe (ncalls w1)) as [v Hv]. rewrite Hrep, Hv. simpl.
  eauto.
Qed.

Lemma elapsed_seconds_returns timer w :
  exists t timer' w', elapsed_seconds timer w = (Ok (t, timer'), w') /\
                      replies w' = replies w.
Proof.
  destruct (timing_elapsed_seconds timer w) as ([[t timer'] Hr] & Hrep & _).
  destruct (elapsed_seconds timer w) as [r w']. simpl in *. subst r. eauto.
Qed.

Lemma close_safe_replies w w' : replies w' = replies w -> close_safe w -> close_safe w'.
Proof. intros H Hs n. rewrite H. apply Hs. Qed.

(** The world in which the scenario starts answers as the initial one. *)
Lemma scenario_world cls agent w driver w1 :
  construct cls agent w = (Ok driver, w1) -> continues w w1.
Proof. intros H. pose proof (quiet_construct cls agent w) as Hq. by rewrite H in Hq. Qed.

Lemma scenario_end driver w r w3 :
  test_scenario driver w = (r, w3) -> continues w w3.
Proof. intros H. pose proof (quiet_test_scenario driver w) as Hq. by rewrite H in Hq. Qed.

(** C2, as the code has it. When the driver is constructed, the six steps
    of the scenario run without an exception and the session's close keeps its
    contract (it returns),
    [test_expandable] returns the row [1, browser, elapsed, "", "", "", "", ""]
    where [browser] is the tag of the driver: passed is 1, the error kind and
    the four site fields are the empty string. *)
Theorem test_expandable_success_record cls w driver w1 w3 :
  construct cls the_user_agent w = (Ok driver, w1) ->
  test_scenario driver (tick w1) = (Ok tt, w3) ->
  close_safe w ->
  exists t w',
    test_expandable cls w =
      (Ok [PInt 1; PStr (browser driver); PFloat t;
           PStr ""; PStr ""; PStr ""; PStr ""; PStr ""], w') /\
    browser driver = browser_tag (cls_kind cls).
Proof.
  intros Hc Hs Hsafe.
  rewrite test_expandable_eq, Hc. unfold try_statement, stmt. rewrite Hs.
  destruct (scenario_world _ _ _ _ _ Hc) as (Hr1 & _).
  destruct (scenario_end _ _ _ _ Hs) as (Hr3 & _). simpl in Hr3.
  assert (Hsafe3 : close_safe w3).
  { apply (close_safe_replies w); [congruence | done]. }
  destruct (finally_block_returns (started w1) w3 Hsafe3) as (tm & w4 & Hf & _).
  destruct (elapsed_seconds_returns tm w4) as (t & tm' & w5 & He & _).
  exists t, w5. split; [| by eapply construct_browser].
  unfold bind. rewrite Hf, He. reflexivity.
Qed.

(** C4. In every invocation of [test_expandable] that gets its driver
    handle, the handle's close is called exactly once: when the scenario
    returns, when it raises an [Exception], when it raises anything else, and
    also when close itself fails. *)
Theorem close_called_exactly_once cls w driver w1 :
  construct cls the_user_agent w = (Ok driver, w1) ->
  count_close (trace (snd (test_expandable cls w))) = count_close (trace w) + 1.
Proof.
  intros Hc.
  rewrite test_expandable_eq, Hc. unfold try_statement, stmt.
  assert (H1 : count_close (trace (tick w1)) = count_close (trace w)).
  { unfold tick. rewrite (keeps_timing _ timing_now w1).
    apply continues_count_close. by eapply scenario_world. }
  destruct (test_scenario driver (tick w1)) as [[[] | e] w3] eqn:Hs;
    pose proof (continues_count_close _ _ (scenario_end _ _ _ _ Hs)) as H3.
  - rewrite finally_block_closes_once; [lia |].
    intros tm. apply keeps_bind; [apply keeps_timing, timing_elapsed_seconds |].
    intros r. apply keeps_quiet, quiet_ret.
  - simpl. destruct (exc_is_Exception e).
    + pose proof (keeps_except_block driver (started w1)
                    (through (mkFrame (src_dir (tick w1) +:+ "/" +:+ "test_expandable.py")
                                      88 "test_expandable" "test_scenario(driver)") e) w3)
        as Hx.
      simpl in Hx.
      destruct (except_block driver (started w1) _ w3) as [[[retval tm] | e'] w4];
        simpl in Hx.
      * rewrite finally_block_closes_once; [lia |].
        intros ?. apply keeps_quiet, quiet_ret.
      * rewrite finally_block_closes_once; [lia |].
        intros ?. apply keeps_quiet, quiet_raise.
    + rewrite finally_block_closes_once; [lia |].
      intros ?. apply keeps_quiet, quiet_raise.
Qed.

(** When the handle cannot be constructed nothing is closed. *)
Lemma close_not_called_without_handle cls w e w1 :
  construct cls the_user_agent w = (Raise e, w1) ->
  count_close (trace (snd (test_expandable cls w))) = count_close (trace w).
Proof.
  intros Hc. rewrite test_expandable_eq, Hc. simpl.
  apply continues_count_close.
  pose proof (quiet_construct cls the_user_agent w) as Hq. by rewrite Hc in Hq.
Qed.

Lemma analyse_error_eq tb fr w :
  last tb = Some fr ->
  analyse_error tb true w =
  (Ok [PStr (filename fr); PInt (lineno fr); PStr (name fr); PStr (line fr)],
   log (EPrint (failure_message fr)) w).
Proof. intros H. unfold analyse_error. by rewrite H. Qed.

Lemma analyse_error_returns tb fr w :
  last tb = Some fr ->
  exists w', analyse_error tb true w =
               (Ok [PStr (filename fr); PInt (lineno fr); PStr (name fr); PStr (line fr)], w') /\
             replies w' = replies w.
Proof. intros H. rewrite (analyse_error_eq _ _ _ H). eauto. Qed.

(** C3, as the code has it. When the scenario raises an exception [e] whose
    class derives from [Exception], and the session's close keeps its
    contract, [test_expandable] returns (it does not raise) the row
    [0, browser, elapsed, type name of e, filename, line, function, text],
    the last four taken from the deepest frame (the last entry) of the
    traceback, which starts at the call of the scenario. *)
Theorem test_expandable_failure_record cls w driver w1 e w3 :
  construct cls the_user_agent w = (Ok driver, w1) ->
  test_scenario driver (tick w1) = (Raise e, w3) ->
  exc_is_Exception e = true ->
  close_safe w ->
  exists t w' fr,
    last (call_site w :: exc_tb e) = Some fr /\
    test_expandable cls w =
      (Ok [PInt 0; PStr (browser_tag (cls_kind cls)); PFloat t; PStr (exc_type e);
           PStr (filename fr); PInt (lineno fr); PStr (name fr); PStr (line fr)], w').
Proof.
  intros Hc Hs Hexc Hsafe.
  rewrite test_expandable_eq, Hc. unfold try_statement, stmt. rewrite Hs. simpl.
  rewrite Hexc, <- (construct_browser _ _ _ _ _ Hc).
  pose proof (scenario_world _ _ _ _ _ Hc) as Hw1.
  destruct Hw1 as (Hr1 & _ & Hsrc & _).
  destruct (scenario_end _ _ _ _ Hs) as (Hr3 & _). simpl in Hr3.
  rewrite Hsrc. fold (call_site w).
  destruct (last (call_site w :: exc_tb e)) as [fr |] eqn:Hlast.
  2: { rewrite last_cons in Hlast. destruct (last (exc_tb e)); discriminate. }
  destruct (analyse_error_returns _ fr w3 Hlast) as (w3' & Ha & Hr3').
  destruct (elapsed_seconds_returns (started w1) w3') as (t & tm & w4 & He & Hr4).
  assert (Hsafe4 : close_safe w4).
  { apply (close_safe_replies w); [congruence | done]. }
  destruct (finally_block_returns tm w4 Hsafe4) as (tm' & w5 & Hf & _).
  exists t, w5, fr. split; [done |].
  unfold except_block, bind.
  change (exc_tb (through (call_site w) e)) with (call_site w :: exc_tb e).
  change (exc_type (through (call_site w) e)) with (exc_type e).
  rewrite Ha, He. simpl. rewrite Hf. reflexivity.
Qed.

(** The constructor starts the session, without reading the clock. *)
Lemma construct_starts_session cls agent w driver w1 :
  construct cls agent w = (Ok driver, w1) ->
  exists o tr,
    trace w1 = trace w ++ tr /\ Forall calm tr /\
    In (ECall (NewSession (browser_tag (cls_kind cls)) (cls_executable_path cls) o)) tr.
Proof.
  unfold construct. destruct (cls_kind cls); simpl.
  - unfold ChromeDriver_init, ChromeDriver_set_user_agent, ChromeDriver_set_headless,
      bind, ret, print, call.
    destruct (agent_truthy agent); simpl;
      repeat match goal with
             | |- context [match replies ?w ?n ?c with _ => _ end] =>
                 destruct (replies w n c)
             end; intros [= <- <-]; simpl; rewrite <- !app_assoc; simpl;
      (eexists; eexists; split; [reflexivity |]; split;
       [repeat constructor | simpl; eauto]).
  - unfold FirefoxDriver_init, FirefoxDriver_set_user_agent, FirefoxDriver_set_headless,
      bind, ret, print, call.
    destruct (agent_truthy agent); simpl;
      repeat match goal with
             | |- context [match replies ?w ?n ?c with _ => _ end] =>
                 destruct (replies w n c)
             end; intros [= <- <-]; simpl; rewrite <- !app_assoc; simpl;
      (eexists; eexists; split; [reflexivity |]; split;
       [repeat constructor | simpl; eauto]).
Qed.

(** C5. When the drivers directory holds no entry, or cannot be listed,
    [get_driver] raises, and with it the definition of the driver class and
    of the registry: no driver of that class is built, the attempt ends with
    the error of [get_driver]. And an error raised while the handle is
    constructed leaves [test_expandable] as it is, from the world the
    constructor left: neither the handler nor the [finally] block has run,
    no record is returned and nothing is closed. *)
Theorem construction_error_propagates listdir dir cls w e w1 :
  (listdir dir = Ok [] \/ exists e0, listdir dir = Raise e0) ->
  construct cls the_user_agent w = (Raise e, w1) ->
  (exists e0, get_driver listdir dir = Raise e0 /\
     (dir = "drivers/chrome" ->
        define_ChromeDriver listdir = Raise e0 /\
        AvailableBrowserDrivers listdir = Raise e0 /\
        forall w0, build_driver listdir Chrome w0 = (Raise e0, w0)) /\
     (dir = "drivers/gecko" ->
        define_FirefoxDriver listdir = Raise e0 /\
        (exists e1, AvailableBrowserDrivers listdir = Raise e1) /\
        forall w0, build_driver listdir Firefox w0 = (Raise e0, w0))) /\
  test_expandable cls w = (Raise e, w1) /\
  (forall record w', test_expandable cls w <> (Ok record, w')) /\
  count_close (trace w1) = count_close (trace w).
Proof.
  intros Hdir Hc. split; [| split; [| split]].
  - assert (Hg : exists e0, get_driver listdir dir = Raise e0).
    { unfold get_driver. destruct Hdir as [-> | [e0 ->]]; eauto. }
    destruct Hg as [e0 Hg]. exists e0. split; [done |]. split; intros ->.
    + unfold build_driver, AvailableBrowserDrivers, define_ChromeDriver. by rewrite Hg.
    + unfold build_driver, AvailableBrowserDrivers, define_FirefoxDriver. rewrite Hg.
      split; [done |]. split; [| done]. destruct (define_ChromeDriver listdir); eauto.
  - by rewrite test_expandable_eq, Hc.
  - intros record w'. by rewrite test_expandable_eq, Hc.
  - pose proof (close_not_called_without_handle cls w e w1 Hc) as H.
    by rewrite test_expandable_eq, Hc in H.
Qed.

Lemma finally_block_eq t0 t1' el w :
  Qeq_bool (clock w (nreads w)) 0 = false ->
  exists w',
    finally_block (mkTimeMeasure t0 t1' el) w =
      (match replies w (ncalls w) Close with
       | Ok _ => Ok (mkTimeMeasure t0 (clock w (nreads w)) (clock w (nreads w) - t0)%Q)
       | Raise e => Raise e
       end, w') /\
    trace w' = trace w ++ [ENow (clock w (nreads w)); ECall Close] /\
    clock w' = clock w.
Proof.
  intros Hz. unfold finally_block, bind. rewrite (stop_eq _ _ _ _ Hz).
  unfold call. simpl.
  destruct (replies w (ncalls w) Close); simpl;
    (eexists; split; [reflexivity |]; simpl; by rewrite <- app_assoc).
Qed.

Lemma last_call_site f tb : exists fr : FrameSummary, last (f :: tb) = Some fr.
Proof. rewrite last_cons. destruct (last tb); eauto. Qed.

(** The first event of a sequence of statements that starts with a call. *)
Lemma first_call_bind {B} ln text c (k : pyval -> M B) w :
  (forall a, quiet (k a)) ->
  exists rest,
    trace (snd (bind (ts ln text (call c)) k w)) = trace w ++ ECall c :: rest.
Proof.
  intros Hk. unfold bind, ts, stmt, call.
  destruct (replies w (ncalls w) c) as [v | e]; simpl; [| by exists []].
  match goal with
  | |- context [k v ?w0] =>
      destruct (Hk v w0) as (_ & _ & _ & _ & tr & Htr & _); simpl in Htr;
      exists tr; by rewrite Htr, <- app_assoc
  end.
Qed.

(** The scenario starts by opening the page. *)
Lemma test_scenario_opens_page driver w :
  exists rest,
    trace (snd (test_scenario driver w)) =
    trace w ++ ECall (Get "http://test.celtra.com/preview/f576e12f#overrides.deviceInfo.deviceType=Phone") :: rest.
Proof.
  unfold test_scenario. apply first_call_bind. intros _.
  unfold ts, get_element_by_css_selector, switch_to_iframe_by_css_selector,
    switch_back_to_parent_frame, __wait_executor.
  quiet_tac.
Qed.

(** The elapsed field and the events of the [try] statement, from the world
    in which it starts: the scenario runs first, from its first call on; the
    clock is read when it is over, and the session is closed last. *)
Lemma try_statement_elapsed driver t0 w record w' :
  try_statement driver (mkTimeMeasure t0 0 0) w = (Ok record, w') ->
  (forall n, Qeq_bool (clock w n) 0 = false) ->
  record !! 2 = Some (PFloat (py_round2 (clock w (nreads w) - t0))) /\
  exists r w3 scen,
    test_scenario driver w = (r, w3) /\
    trace w3 = trace w ++ scen /\ Forall calm scen /\
    (exists rest, scen = ECall (Get "http://test.celtra.com/preview/f576e12f#overrides.deviceInfo.deviceType=Phone") :: rest) /\
    ((r = Ok tt /\
      trace w' = trace w3 ++ [ENow (clock w (nreads w)); ECall Close]) \/
     (exists e fr,
        r = Raise e /\ exc_is_Exception e = true /\
        last (call_site w :: exc_tb e) = Some fr /\
        trace w' = trace w3 ++ [EPrint (failure_message fr);
                                ENow (clock w (nreads w));
                                ENow (clock w (S (nreads w)));
                                ECall Close])).
Proof.
  intros Hrun Hclock. unfold try_statement, stmt in Hrun.
  destruct (test_scenario_opens_page driver w) as [rest Hget].
  destruct (test_scenario driver w) as [[[] | e] w3] eqn:Hs;
    destruct (scenario_end _ _ _ _ Hs) as (_ & Hc3 & _ & Hn3 & scen & Hscen & Hcalm);
    simpl in Hget;
    assert (Hfirst : scen = ECall (Get "http://test.celtra.com/preview/f576e12f#overrides.deviceInfo.deviceType=Phone") :: rest)
      by (rewrite Hscen in Hget; by apply app_inv_head in Hget).
  - assert (Hz : Qeq_bool (clock w3 (nreads w3)) 0 = false) by (rewrite Hc3; apply Hclock).
    destruct (finally_block_eq t0 0 0 w3 Hz) as (w4 & Hf & Ht4 & _).
    unfold bind in Hrun. rewrite Hf in Hrun.
    destruct (replies w3 (ncalls w3) Close); [| discriminate].
    rewrite (elapsed_seconds_stopped _ _ _ _ Hz) in Hrun.
    injection Hrun as <- <-. rewrite Hc3, Hn3 in *. split; [reflexivity |].
    exists (Ok tt), w3, scen. split; [reflexivity |].
    split; [exact Hscen |]. split; [exact Hcalm |]. split; [by exists rest |].
    left. split; [reflexivity | exact Ht4].
  - cbn [through exc_is_Exception exc_tb exc_type] in Hrun.
    destruct (exc_is_Exception e) eqn:Hexc.
    2: { unfold bind, raise in Hrun.
         destruct (finally_block _ w3) as [[tm | e'] w4]; discriminate. }
    destruct (last_call_site (mkFrame (src_dir w +:+ "/" +:+ "test_expandable.py") 88
                                "test_expandable" "test_scenario(driver)") (exc_tb e))
      as [fr Hlast].
    unfold except_block, bind in Hrun.
    rewrite (analyse_error_eq _ _ _ Hlast), elapsed_seconds_running in Hrun.
    simpl in Hrun.
    set (w5 := tick (log (EPrint (failure_message fr)) w3)) in *.
    assert (Hz : Qeq_bool (clock w5 (nreads w5)) 0 = false).
    { subst w5. simpl. rewrite Hc3. apply Hclock. }
    destruct (finally_block_eq t0 0 (clock w3 (nreads w3) - t0) w5 Hz) as (w6 & Hf & Ht6 & _).
    rewrite Hf in Hrun.
    destruct (replies w5 (ncalls w5) Close); [| discriminate].
    injection Hrun as <- <-. rewrite Hc3, Hn3 in *. split; [reflexivity |].
    exists (Raise e), w3, scen. split; [reflexivity |].
    split; [exact Hscen |]. split; [exact Hcalm |]. split; [by exists rest |].
    right. exists e, fr. split; [reflexivity |]. split; [exact Hexc |].
    split; [exact Hlast |].
    rewrite Ht6. subst w5. simpl. rewrite Hc3, Hn3, <- !app_assoc. reflexivity.
Qed.

(** C6, as the code has it. The elapsed field of a returned record is
    [round(t1 - t0, 2)], where [t0] is the reading of the clock by
    [timer.start()], after the handle is constructed, and [t1] the next
    reading, taken when the scenario has returned or raised and before the
    session is closed: a whole number of hundredths, never a truncation to
    whole seconds, and not negative when the clock has not gone back.
    The events of the invocation are, in this order: those of the
    construction of the handle, among them the start of the session, and
    none of them a reading of the clock; the reading [t0]; the events of the
    scenario, run on the handle from its first call (the page is opened) to
    its end, none of them a reading of the clock; then, when the scenario has
    returned, the reading [t1] of [timer.stop()] and the call of close; when
    it has raised an [Exception], the message of [analyse_error], the reading
    [t1] of the getter, the reading of [timer.stop()] and the call of
    close. *)
Theorem elapsed_seconds_of_record cls w record w' :
  test_expandable cls w = (Ok record, w') ->
  (forall n, Qeq_bool (clock w n) 0 = false) ->
  let t0 := clock w (nreads w) in
  let t1 := clock w (S (nreads w)) in
  record !! 2 = Some (PFloat (py_round2 (t1 - t0))) /\
  (py_round2 (t1 - t0) == round_half_even ((t1 - t0) * 100) # 100)%Q /\
  ((t0 <= t1)%Q -> (0 <= py_round2 (t1 - t0))%Q) /\
  exists driver w1 r w3 pre scen o,
    construct cls the_user_agent w = (Ok driver, w1) /\
    trace w1 = trace w ++ pre /\
    Forall calm pre /\
    In (ECall (NewSession (browser_tag (cls_kind cls)) (cls_executable_path cls) o)) pre /\
    test_scenario driver (tick w1) = (r, w3) /\
    trace w3 = trace w ++ pre ++ ENow t0 :: scen /\
    Forall calm scen /\
    (exists rest, scen = ECall (Get "http://test.celtra.com/preview/f576e12f#overrides.deviceInfo.deviceType=Phone") :: rest) /\
    ((r = Ok tt /\
      trace w' = trace w ++ pre ++ ENow t0 :: scen ++ [ENow t1; ECall Close]) \/
     (exists e fr,
        r = Raise e /\ exc_is_Exception e = true /\
        last (call_site w :: exc_tb e) = Some fr /\
        trace w' = trace w ++ pre ++ ENow t0 :: scen ++
                     [EPrint (failure_message fr); ENow t1;
                      ENow (clock w (S (S (nreads w)))); ECall Close])).
Proof.
  intros Hrun Hclock t0 t1.
  split; [| split; [apply py_round2_hundredths | split]].
  2: { intros Hle. apply py_round2_nonneg. unfold Qminus.
       rewrite <- Qle_minus_iff. exact Hle. }
  all: rewrite test_expandable_eq in Hrun;
    destruct (construct cls the_user_agent w) as [[driver | e] w1] eqn:Hc;
      [| discriminate];
    destruct (scenario_world _ _ _ _ _ Hc) as (Hr1 & Hc1 & Hsrc1 & Hn1 & _);
    destruct (construct_starts_session _ _ _ _ _ Hc) as (o & pre & Hpre & Hcalm & Hin);
    assert (Hclock' : forall n, Qeq_bool (clock (tick w1) n) 0 = false)
      by (intros n; simpl; rewrite Hc1; apply Hclock);
    destruct (try_statement_elapsed _ _ _ _ _ Hrun Hclock')
      as (Hfield & r & w3 & scen & Hs & Hscen & Hcalm' & Hget & Hend);
    simpl in Hfield, Hscen, Hend; rewrite Hc1, Hn1 in Hfield, Hscen, Hend.
  - exact Hfield.
  - exists driver, w1, r, w3, pre, scen, o.
    split; [reflexivity |]. split; [exact Hpre |]. split; [exact Hcalm |].
    split; [exact Hin |]. split; [exact Hs |].
    assert (Htr3 : trace w3 = trace w ++ pre ++ ENow t0 :: scen).
    { rewrite Hscen, Hpre, <- !app_assoc. reflexivity. }
    split; [exact Htr3 |]. split; [exact Hcalm' |]. split; [exact Hget |].
    destruct Hend as [[-> Hend] | (e & fr & -> & Hexc & Hlast & Hend)].
    + left. split; [reflexivity |].
      rewrite Hend, Htr3, <- !app_assoc. reflexivity.
    + right. exists e, fr. split; [reflexivity |]. split; [exact Hexc |].
      split; [unfold call_site in *; simpl in Hlast; by rewrite <- Hsrc1 |].
      rewrite Hend, Htr3, <- !app_assoc. reflexivity.
Qed.

(** ** The recorder on the concrete worlds *)

Lemma with_snd {A B} (x : A * B) (a : A) : fst x = a -> x = (a, snd x).
Proof. destruct x as [a' b]. simpl. by intros ->. Qed.

Ltac run := apply with_snd; vm_compute; reflexivity.

Lemma close_safe_good off : close_safe (good_world off).
Proof. intros n. exists PNone. reflexivity. Qed.

Lemma close_safe_banner_missing : close_safe (world_of banner_missing_replies).
Proof. intros n. exists PNone. reflexivity. Qed.

Lemma close_safe_interrupted : close_safe (world_of interrupted_replies).
Proof. intros n. exists PNone. reflexivity. Qed.

Lemma test_expandable_success_record_witness :
  let w := good_world 0 in
  exists t w',
    test_expandable chrome_class w =
      (Ok [PInt 1; PStr (browser chrome_driver); PFloat t;
           PStr ""; PStr ""; PStr ""; PStr ""; PStr ""], w') /\
    browser chrome_driver = browser_tag (cls_kind chrome_class).
Proof.
  intros w.
  apply (test_expandable_success_record chrome_class w chrome_driver
           (snd (construct chrome_class the_user_agent w))
           (snd (test_scenario chrome_driver
                   (tick (snd (construct chrome_class the_user_agent w)))))).
  - run.
  - run.
  - apply close_safe_good.
Defined.

Lemma close_called_exactly_once_witness :
  let w := world_of banner_missing_replies in
  count_close (trace (snd (test_expandable chrome_class w))) = count_close (trace w) + 1.
Proof.
  intros w.
  apply (close_called_exactly_once chrome_class w chrome_driver
           (snd (construct chrome_class the_user_agent w))).
  run.
Defined.

Lemma test_expandable_failure_record_witness :
  let w := world_of banner_missing_replies in
  let e := through frame_29 TimeoutException in
  exists t w' fr,
    last (call_site w :: exc_tb e) = Some fr /\
    test_expandable chrome_class w =
      (Ok [PInt 0; PStr (browser_tag (cls_kind chrome_class)); PFloat t; PStr (exc_type e);
           PStr (filename fr); PInt (lineno fr); PStr (name fr); PStr (line fr)], w').
Proof.
  intros w e.
  apply (test_expandable_failure_record chrome_class w chrome_driver
           (snd (construct chrome_class the_user_agent w)) e
           (snd (test_scenario chrome_driver
                   (tick (snd (construct chrome_class the_user_agent w)))))).
  - run.
  - run.
  - reflexivity.
  - apply close_safe_banner_missing.
Defined.

(** The banner never shows up: the row names the wait of the automation
    engine, the deepest frame, as the site. *)
Example banner_missing_row :
  fst (test_expandable chrome_class (world_of banner_missing_replies)) =
  Ok [PInt 0; PStr "chrome"; PFloat (357 # 100); PStr "TimeoutException";
      PStr "/usr/lib/python3/site-packages/selenium/webdriver/support/wait.py";
      PInt 95; PStr "until";
      PStr "raise TimeoutException(message, screen, stacktrace)"].
Proof. vm_compute. reflexivity. Qed.

(** C2, counterexample. The six steps of the scenario run without an
    exception on a chrome driver, and the session cannot be closed: the
    [finally] block raises the exception of [close] before the [return] of
    line 95 is reached, so [test_expandable] raises and returns no record. *)
Lemma scenario_success_without_record :
  let w := world_of close_fails_replies in
  (exists w1,
     construct chrome_class the_user_agent w = (Ok chrome_driver, w1) /\
     fst (test_scenario chrome_driver (tick w1)) = Ok tt) /\
  fst (test_expandable chrome_class w) =
    Raise (mkExn "InvalidSessionIdException" true []) /\
  (forall record w', test_expandable chrome_class w <> (Ok record, w')).
Proof.
  intros w.
  assert (H : fst (test_expandable chrome_class w) =
              Raise (mkExn "InvalidSessionIdException" true []))
    by (vm_compute; reflexivity).
  split; [| split; [exact H |]].
  - exists (snd (construct chrome_class the_user_agent w)).
    split; [run | vm_compute; reflexivity].
  - intros record w' Heq. rewrite Heq in H. discriminate H.
Qed.

(** C3, counterexample. A KeyboardInterrupt raised by the pause of the
    scenario is not an [Exception]: the handler is skipped, the [finally]
    block runs, and the exception leaves [test_expandable]; no record is
    returned. *)
Lemma scenario_interrupt_leaves_test_expandable :
  let w := world_of interrupted_replies in
  close_safe w /\
  (exists w1,
     construct chrome_class the_user_agent w = (Ok chrome_driver, w1) /\
     fst (test_scenario chrome_driver (tick w1)) = Raise (through frame_36 KeyboardInterrupt)) /\
  fst (test_expandable chrome_class w) =
    Raise (through (call_site w) (through frame_36 KeyboardInterrupt)) /\
  (forall record w', test_expandable chrome_class w <> (Ok record, w')).
Proof.
  intros w.
  assert (H : fst (test_expandable chrome_class w) =
              Raise (through (call_site w) (through frame_36 KeyboardInterrupt)))
    by (vm_compute; reflexivity).
  split; [apply close_safe_interrupted |]. split; [| split; [exact H |]].
  - exists (snd (construct chrome_class the_user_agent w)).
    split; [run | vm_compute; reflexivity].
  - intros record w' Heq. rewrite Heq in H. discriminate H.
Qed.

Lemma construction_error_propagates_witness :
  let listdir : Listing := fun _ => Ok [] in
  let w := world_of no_session_replies in
  let e := mkExn "WebDriverException" true [] in
  let w1 := snd (construct chrome_class the_user_agent w) in
  (exists e0, get_driver listdir "drivers/chrome" = Raise e0 /\
     ("drivers/chrome" = "drivers/chrome" ->
        define_ChromeDriver listdir = Raise e0 /\
        AvailableBrowserDrivers listdir = Raise e0 /\
        forall w0, build_driver listdir Chrome w0 = (Raise e0, w0)) /\
     ("drivers/chrome" = "drivers/gecko" ->
        define_FirefoxDriver listdir = Raise e0 /\
        (exists e1, AvailableBrowserDrivers listdir = Raise e1) /\
        forall w0, build_driver listdir Firefox w0 = (Raise e0, w0))) /\
  test_expandable chrome_class w = (Raise e, w1) /\
  (forall record w', test_expandable chrome_class w <> (Ok record, w')) /\
  count_close (trace w1) = count_close (trace w).
Proof.
  intros listdir w e w1.
  apply (construction_error_propagates listdir "drivers/chrome" chrome_class w e w1).
  - left. reflexivity.
  - run.
Defined.

Lemma elapsed_seconds_of_record_witness :
  let w := good_world 0 in
  let t0 := clock w (nreads w) in
  let t1 := clock w (S (nreads w)) in
  exists (record : Row) (w' : World),
    record !! 2 = Some (PFloat (py_round2 (t1 - t0))) /\
    (py_round2 (t1 - t0) == round_half_even ((t1 - t0) * 100) # 100)%Q /\
    ((t0 <= t1)%Q -> (0 <= py_round2 (t1 - t0))%Q) /\
    exists driver w1 r w3 pre scen o,
      construct chrome_class the_user_agent w = (Ok driver, w1) /\
      trace w1 = trace w ++ pre /\
      Forall calm pre /\
      In (ECall (NewSession (browser_tag (cls_kind chrome_class))
                            (cls_executable_path chrome_class) o)) pre /\
      test_scenario driver (tick w1) = (r, w3) /\
      trace w3 = trace w ++ pre ++ ENow t0 :: scen /\
      Forall calm scen /\
      (exists rest, scen = ECall (Get "http://test.celtra.com/preview/f576e12f#overrides.deviceInfo.deviceType=Phone") :: rest) /\
      ((r = Ok tt /\
        trace w' = trace w ++ pre ++ ENow t0 :: scen ++ [ENow t1; ECall Close]) \/
       (exists e fr,
          r = Raise e /\ exc_is_Exception e = true /\
          last (call_site w :: exc_tb e) = Some fr /\
          trace w' = trace w ++ pre ++ ENow t0 :: scen ++
                       [EPrint (failure_message fr); ENow t1;
                        ENow (clock w (S (S (nreads w)))); ECall Close])).
Proof.
  intros w t0 t1.
  exists [PInt 1; PStr "chrome"; PFloat (357 # 100);
          PStr ""; PStr ""; PStr ""; PStr ""; PStr ""],
         (snd (test_expandable chrome_class w)).
  apply (elapsed_seconds_of_record chrome_class w).
  - run.
  - intros n. unfold w, good_world, world_of, clock, steady_clock.
    destruct (Qeq_bool _ 0) eqn:Hz; [| reflexivity].
    apply Qeq_bool_iff in Hz. rewrite Qred_correct in Hz.
    exfalso. revert Hz. unfold Qeq, Qplus, Qmult, inject_Z. simpl. lia.
Defined.

(** C6, counterexample. The scenario takes 3.57 s and returns; the [finally]
    block has stopped the timer before the record is built, and yet the
    elapsed field is 3.57, not the whole second 3 the setter stored: the
    getter computes the difference of the timestamps again. The same holds
    for the value [stop] itself returns. Moreover the wall clock can be set
    back: the field is then negative. And were the reading taken by [stop]
    the epoch itself, the getter would take the timer for running and read
    the clock once more, after the session is closed. *)
Lemma elapsed_not_truncated_after_stop :
  let w := good_world 0 in
  fst (test_expandable chrome_class w) =
    Ok [PInt 1; PStr "chrome"; PFloat (357 # 100);
        PStr ""; PStr ""; PStr ""; PStr ""; PStr ""] /\
  py_int (clock w 1 - clock w 0) = 3%Z /\
  (forall z : Z, ~ (357 # 100 == inject_Z z)%Q) /\
  fst ((r <- TimeMeasure_start TimeMeasure_new ;;
        s <- TimeMeasure_stop (snd r) ;;
        v <- elapsed_seconds (snd s) ;;
        ret (fst s, fst v)) w) = Ok ((357 # 100)%Q, (357 # 100)%Q) /\
  fst (test_expandable chrome_class (world_with_clock backward_clock)) =
    Ok [PInt 1; PStr "chrome"; PFloat (-1);
        PStr ""; PStr ""; PStr ""; PStr ""; PStr ""] /\
  fst (test_expandable chrome_class (world_with_clock epoch_clock)) =
    Ok [PInt 1; PStr "chrome"; PFloat (epoch_clock 4 - epoch_clock 0);
        PStr ""; PStr ""; PStr ""; PStr ""; PStr ""] /\
  last (trace (snd (test_expandable chrome_class (world_with_clock epoch_clock)))) =
    Some (ENow (epoch_clock 4)).
Proof.
  intros w. split; [vm_compute; reflexivity |].
  split; [vm_compute; reflexivity |].
  split; [intros z; unfold Qeq, inject_Z; simpl; lia |].
  split; [vm_compute; reflexivity |].
  split; [vm_compute; reflexivity |].
  split; [vm_compute; reflexivity |].
  vm_compute. reflexivity.
Qed.

(** ** The worker pool *)

Section Pool.
Context {A R : Type} (fn : nat -> A -> result R) (xs : list A).

Lemma run_tasks_step (futures : gmap nat (result R)) (order : list nat) (k : nat) :
  foldl (fun futures k =>
           match xs !! k with
           | Some x => <[k := fn k x]> futures
           | None => futures
           end) futures order !! k =
  match xs !! k with
  | Some x => if decide (k ∈ order) then Some (fn k x) else futures !! k
  | None => futures !! k
  end.
Proof.
  revert futures. induction order as [|j order IH]; intros futures; cbn [foldl].
  - destruct (xs !! k); [| done]. case_decide; [set_solver | done].
  - rewrite IH. destruct (xs !! k) as [x |] eqn:Hk.
    + destruct (decide (k ∈ order)) as [Hin | Hin].
      * case_decide; [done | set_solver].
      * destruct (decide (j = k)) as [-> | Hne].
        -- rewrite decide_True by set_solver. rewrite Hk. by rewrite lookup_insert_eq.
        -- destruct (decide (k ∈ j :: order)) as [Hin' | _].
           { apply elem_of_cons in Hin' as [-> | Hin']; done. }
           destruct (xs !! j); [by rewrite lookup_insert_ne | done].
    + destruct (xs !! j) eqn:Hj; [| done].
      rewrite lookup_insert_ne; [done |]. intros ->. congruence.
Qed.

(** Once every task has completed, whatever the order, the future of task
    [k] holds what task [k] returned. *)
Lemma run_tasks_lookup (order : list nat) (k : nat) (x : A) :
  k ∈ order -> xs !! k = Some x ->
  run_tasks fn xs order !! k = Some (fn k x).
Proof.
  intros Hin Hk. unfold run_tasks. rewrite run_tasks_step, Hk.
  by rewrite decide_True.
Qed.

Lemma gather_sequential (futures : gmap nat (result R)) (s : nat) (l : list A) :
  (forall i x, l !! i = Some x -> futures !! (s + i) = Some (fn (s + i) x)) ->
  gather futures (seq s (length l)) = Some (sequential fn s l).
Proof.
  revert s. induction l as [|x l IH]; intros s Hl; [done |]. simpl.
  pose proof (Hl 0 x eq_refl) as H0. rewrite Nat.add_0_r in H0. rewrite H0.
  destruct (fn s x) as [r | e]; [| done].
  rewrite IH; [by destruct (sequential fn (S s) l) |].
  intros i y Hi. specialize (Hl (S i) y Hi).
  by replace (S s + i) with (s + S i) by lia.
Qed.

(** The gathering does not depend on the order of completion. *)
Lemma executor_map_sequential (finish : nat -> nat) :
  executor_map fn xs finish = Some (sequential fn 0 xs).
Proof.
  unfold executor_map. apply gather_sequential. intros i x Hi. simpl.
  apply run_tasks_lookup; [| done].
  unfold completion_order. rewrite merge_sort_Permutation.
  apply elem_of_seq. apply lookup_lt_Some in Hi. lia.
Qed.

Lemma sequential_lookup (s : nat) (l : list A) (rs : list R) :
  sequential fn s l = Ok rs ->
  length rs = length l /\
  forall k x, l !! k = Some x ->
    exists r, fn (s + k) x = Ok r /\ rs !! k = Some r.
Proof.
  revert s rs. induction l as [|x l IH]; intros s rs; simpl.
  - intros [= <-]. split; [done |]. intros k x Hk. done.
  - destruct (fn s x) as [r | e] eqn:Hx; [| done].
    destruct (sequential fn (S s) l) as [rs' | e] eqn:Hrest; [| done].
    intros [= <-]. destruct (IH _ _ Hrest) as [Hlen Hall].
    split; [simpl; lia |]. intros [|k] y Hk; simpl in Hk.
    + injection Hk as <-. rewrite Nat.add_0_r. eauto.
    + destruct (Hall k y Hk) as (r' & Hr' & Hlk).
      exists r'. split; [| done]. by replace (s + S k) with (S s + k) by lia.
Qed.

Lemma sequential_returns (s : nat) (l : list A) :
  (forall k x, l !! k = Some x -> exists r, fn (s + k) x = Ok r) ->
  exists rs, sequential fn s l = Ok rs.
Proof.
  revert s. induction l as [|x l IH]; intros s Hl; simpl; [eauto |].
  destruct (Hl 0 x eq_refl) as [r Hr]. rewrite Nat.add_0_r in Hr. rewrite Hr.
  destruct (IH (S s)) as [rs Hrs].
  { intros k y Hk. destruct (Hl (S k) y Hk) as [r' Hr'].
    exists r'. by replace (S s + k) with (s + S k) by lia. }
  rewrite Hrs. eauto.
Qed.
End Pool.

(** The order of completion is a real parameter: the later task may well
    complete first. *)
Example completion_order_reversed :
  completion_order (fun k => 5 - k) 2 = [1; 0].
Proof. reflexivity. Qed.

(** ** The rows of the log *)

(** Whatever [test_expandable] returns starts with 1 or 0, the tag of the
    class and the elapsed time. *)
Lemma test_expandable_record_shape cls w record w' :
  test_expandable cls w = (Ok record, w') ->
  exists b t rest,
    record = PInt b :: PStr (browser_tag (cls_kind cls)) :: PFloat t :: rest /\
    (b = 0 \/ b = 1)%Z.
Proof.
  rewrite test_expandable_eq.
  destruct (construct cls the_user_agent w) as [[driver | e] w1] eqn:Hc; [| done].
  rewrite <- (construct_browser _ _ _ _ _ Hc).
  unfold try_statement, stmt.
  destruct (test_scenario driver (tick w1)) as [[[] | e] w3].
  - unfold bind, ret.
    destruct (finally_block (started w1) w3) as [[tm | e] w4];
      [| intros H; discriminate H].
    destruct (elapsed_seconds tm w4) as [[[t tm'] | e] w5];
      [| intros H; discriminate H].
    intros [= <- _]. eauto 10.
  - destruct (exc_is_Exception _).
    + unfold except_block, bind, ret, raise.
      destruct (analyse_error _ true w3) as [[error_data | e1] w4].
      * destruct (elapsed_seconds (started w1) w4) as [[[t tm'] | e2] w5].
        -- cbn [fst snd].
           destruct (finally_block tm' w5) as [[tm | e3] w6];
             [| intros H; discriminate H].
           intros [= <- _]. simpl. eauto 10.
        -- destruct (finally_block (started w1) w5) as [[tm | e3] w6];
             intros H; discriminate H.
      * destruct (finally_block (started w1) w4) as [[tm | e3] w6];
          intros H; discriminate H.
    + unfold bind, raise.
      destruct (finally_block (started w1) w3) as [[tm | e3] w6];
        intros H; discriminate H.
Qed.

Lemma worker_record h i k cls v :
  worker h i k cls = Ok v ->
  exists row, v = PList row /\ is_record row /\
              row !! 1 = Some (PStr (browser_tag (cls_kind cls))).
Proof.
  unfold worker.
  destruct (test_expandable cls (spawn h i k)) as [[record | e] w'] eqn:Hrun; [| done].
  simpl. intros [= <-].
  destruct (test_expandable_record_shape _ _ _ _ Hrun) as (b & t & rest & -> & Hb).
  exists (PInt b :: PStr (browser_tag (cls_kind cls)) :: PFloat t :: rest).
  split; [done |]. split; [| done]. red. eauto 10.
Qed.

Lemma header_not_record : ~ is_record header.
Proof. intros (b & tag & t & rest & Heq & _). discriminate Heq. Qed.

Lemma writerows_rows file_path data rows old (fs : Files) :
  rows_of data = Some rows ->
  fs !! file_path = Some old ->
  writerows file_path data fs = (Ok tt, <[file_path := old ++ rows]> fs).
Proof.
  revert rows old fs. induction data as [|v data IH]; intros rows old fs; simpl.
  - intros [= <-] Hold. rewrite app_nil_r. by rewrite insert_id.
  - destruct v as [| | | | | | row]; try done.
    destruct (rows_of data) as [rows' |] eqn:Hrows; [| done].
    intros [= <-] Hold. simpl.
    rewrite (IH rows' (old ++ [row])); [| done |].
    + unfold writerow. rewrite Hold. simpl.
      rewrite insert_insert_eq. by rewrite <- app_assoc.
    + unfold writerow. rewrite Hold. simpl. by rewrite lookup_insert_eq.
Qed.

Lemma append_rows file_path data rows old (fs : Files) :
  rows_of data = Some rows ->
  fs !! file_path = Some old ->
  append_to_csv_file file_path data fs =
  (match data with [] => Raise IndexError | _ => Ok tt end,
   <[file_path := old ++ rows]> fs).
Proof.
  intros Hrows Hold. unfold append_to_csv_file.
  assert (Hopen : open_append file_path fs = fs).
  { unfold open_append. rewrite Hold. simpl. by apply insert_id. }
  rewrite Hopen. destruct data as [|v data].
  - injection Hrows as <-. rewrite app_nil_r. by rewrite insert_id.
  - destruct v as [| | | | | | row]; try done.
    by apply writerows_rows.
Qed.

(** ** The harness *)

(** The results of one iteration are one row per driver class, in the order
    of the classes. *)
Lemma batch_rows h i s ds res :
  sequential (worker h i) s ds = Ok res ->
  exists rows,
    rows_of res = Some rows /\ length rows = length ds /\ Forall is_record rows /\
    forall k cls, ds !! k = Some cls ->
      exists row, worker h i (s + k) cls = Ok (PList row) /\ rows !! k = Some row /\
                  row !! 1 = Some (PStr (browser_tag (cls_kind cls))).
Proof.
  revert s res. induction ds as [|cls0 ds IH]; intros s res; simpl.
  - intros [= <-]. exists []. repeat split; [constructor |]. intros k cls Hk. done.
  - destruct (worker h i s cls0) as [v | e] eqn:Hw; [| done].
    destruct (sequential (worker h i) (S s) ds) as [res' | e] eqn:Hrest; [| done].
    intros [= <-].
    destruct (worker_record _ _ _ _ _ Hw) as (row & -> & Hrec & Htag).
    destruct (IH _ _ Hrest) as (rows & Hrows & Hlen & Hall & Hlk).
    exists (row :: rows). simpl. rewrite Hrows.
    split; [done |]. split; [lia |]. split; [by constructor |].
    intros [|k] cls Hk; simpl in Hk.
    + injection Hk as <-. rewrite Nat.add_0_r. eauto.
    + destruct (Hlk k cls Hk) as (row' & Hw' & Hr' & Htag').
      exists row'. by replace (s + S k) with (S s + k) by lia.
Qed.

Section Harness.
Context (h : Harness) (ds : list DriverClass).
Let p := log_filename h.

Lemma main_loop_rows n : forall i (fs : Files) old r fs',
  fs !! p = Some old ->
  main_loop h ds i n fs = Some (r, fs') ->
  exists rows,
    fs' = <[p := old ++ rows]> fs /\ Forall is_record rows /\
    (r = Ok tt ->
     length rows = n * length ds /\
     forall j k cls, j < n -> ds !! k = Some cls ->
       exists row, worker h (i + j) k cls = Ok (PList row) /\
                   rows !! (j * length ds + k) = Some row /\
                   row !! 1 = Some (PStr (browser_tag (cls_kind cls)))).
Proof.
  induction n as [|n IH]; intros i fs old r fs' Hold; simpl.
  - intros [= <- <-]. exists []. rewrite app_nil_r.
    split; [by rewrite insert_id |]. split; [constructor |].
    intros _. split; [done |]. intros j k cls Hj. lia.
  - rewrite executor_map_sequential.
    destruct (sequential (worker h i) 0 ds) as [res | e] eqn:Hseq.
    2: { intros [= <- <-]. exists []. rewrite app_nil_r.
         split; [by rewrite insert_id |]. split; [constructor | done]. }
    destruct (batch_rows _ _ _ _ _ Hseq) as (rows & Hrows & Hlen & Hrec & Hlk).
    fold p. rewrite (append_rows p res rows old fs Hrows Hold).
    destruct res as [|v res].
    { intros [= <- <-]. exists rows. done. }
    intros Hloop.
    destruct (IH (S i) (<[p := old ++ rows]> fs) (old ++ rows) r fs') as
      (rows' & -> & Hrec' & Hok); [by rewrite lookup_insert_eq | done |].
    exists (rows ++ rows'). rewrite insert_insert_eq, <- app_assoc.
    split; [done |]. split; [by apply Forall_app |].
    intros Hr. destruct (Hok Hr) as [Hlen' Hlk'].
    split; [rewrite length_app; lia |].
    intros [|j] k cls Hj Hk.
    + destruct (Hlk k cls Hk) as (row & Hw & Hrow & Htag).
      exists row. rewrite Nat.add_0_r. split; [done |]. split; [| done].
      simpl. by rewrite lookup_app_l by (apply lookup_lt_Some in Hrow; lia).
    + destruct (Hlk' j k cls) as (row & Hw & Hrow & Htag); [lia | done |].
      exists row. replace (i + S j) with (S i + j) by lia.
      split; [done |]. split; [| done].
      rewrite lookup_app_r by (simpl; lia).
      by replace (S j * length ds + k - length rows) with (j * length ds + k)
        by (simpl; lia).
Qed.

(** The loop always comes to an end: every future is completed. *)
Lemma main_loop_total n : forall i (fs : Files),
  exists r fs', main_loop h ds i n fs = Some (r, fs').
Proof.
  induction n as [|n IH]; intros i fs; simpl; [eauto |].
  rewrite executor_map_sequential.
  destruct (sequential (worker h i) 0 ds) as [res | e]; [| eauto].
  destruct (append_to_csv_file (log_filename h) res fs) as [[[] | e] fs1]; eauto.
Qed.

(** When every worker returns and there is a driver class, the loop
    returns. *)
Lemma main_loop_completes n : forall i (fs : Files),
  ds <> [] ->
  is_Some (fs !! p) ->
  (forall j k cls, j < n -> ds !! k = Some cls ->
     exists v, worker h (i + j) k cls = Ok v) ->
  exists fs', main_loop h ds i n fs = Some (Ok tt, fs').
Proof.
  induction n as [|n IH]; intros i fs Hds [old Hold] Hall; simpl; [eauto |].
  rewrite executor_map_sequential.
  destruct (sequential_returns (worker h i) 0 ds) as [res Hseq].
  { intros k cls Hk. destruct (Hall 0 k cls) as [v Hv]; [lia | done |].
    rewrite Nat.add_0_r in Hv. eauto. }
  rewrite Hseq.
  destruct (batch_rows _ _ _ _ _ Hseq) as (rows & Hrows & Hlen & _).
  fold p. rewrite (append_rows p res rows old fs Hrows Hold).
  destruct res as [|v res].
  { injection Hrows as <-. destruct ds; [done | discriminate Hlen]. }
  apply IH; [done | by rewrite lookup_insert_eq |].
  intros j k cls Hj Hk. replace (S i + j) with (i + S j) by lia.
  apply Hall; [lia | done].
Qed.
End Harness.

Lemma create_csv_file_absent file_path hd (fs : Files) :
  fs !! file_path = None -> create_csv_file file_path hd fs = <[file_path := [hd]]> fs.
Proof.
  intros H. unfold create_csv_file, isfile.
  rewrite bool_decide_eq_false_2; [done |]. rewrite H. by intros [? ?].
Qed.

Lemma create_csv_file_present file_path hd (fs : Files) :
  is_Some (fs !! file_path) -> create_csv_file file_path hd fs = fs.
Proof.
  intros H. unfold create_csv_file, isfile. by rewrite bool_decide_eq_true_2.
Qed.

Lemma create_csv_file_lookup file_path hd (fs : Files) :
  create_csv_file file_path hd fs !! file_path = Some (default [hd] (fs !! file_path)).
Proof.
  destruct (fs !! file_path) as [old |] eqn:H.
  - by rewrite create_csv_file_present.
  - rewrite create_csv_file_absent by done. by rewrite lookup_insert_eq.
Qed.

(** [main] always returns or raises. *)
Lemma main_total h ds N (fs : Files) : exists r fs', main h ds N fs = Some (r, fs').
Proof. apply main_loop_total. Qed.

(** [main(0)] only makes sure the log exists. *)
Lemma main_zero h ds (fs : Files) :
  main h ds 0 fs = Some (Ok tt, create_csv_file (log_filename h) header fs).
Proof. reflexivity. Qed.

Lemma main_completes h ds N (fs : Files) :
  ds <> [] ->
  (forall i k cls, i < Z.to_nat N -> ds !! k = Some cls ->
     exists v, worker h i k cls = Ok v) ->
  exists fs', main h ds N fs = Some (Ok tt, fs').
Proof.
  intros Hds Hall. unfold main.
  apply main_loop_completes; [done | | done].
  rewrite create_csv_file_lookup. eauto.
Qed.

(** C1. A run of [main(N)], [N >= 0], that completes leaves in the log what
    was there (the header alone when the log was absent) followed by exactly
    [N * B] rows, [B] the number of driver classes: the row at place
    [i * B + k] is the record the worker of iteration [i] returned for the
    [k]-th class. With [N = 0] no row is added, and a log that was absent
    holds the header only. No other file is touched. *)
Theorem main_appends_one_row_per_pair h ds (N : Z) (fs fs' : Files) :
  (0 <= N)%Z ->
  main h ds N fs = Some (Ok tt, fs') ->
  exists rows,
    fs' = <[log_filename h := default [header] (fs !! log_filename h) ++ rows]> fs /\
    fs' !! log_filename h = Some (default [header] (fs !! log_filename h) ++ rows) /\
    Z.of_nat (length rows) = (N * Z.of_nat (length ds))%Z /\
    (forall i k cls, i < Z.to_nat N -> ds !! k = Some cls ->
       exists row, worker h i k cls = Ok (PList row) /\
                   rows !! (i * length ds + k) = Some row) /\
    (N = 0%Z -> rows = [] /\
                (fs !! log_filename h = None -> fs' !! log_filename h = Some [header])).
Proof.
  intros HN Hmain. unfold main in Hmain.
  destruct (main_loop_rows h ds _ _ _ _ _ _ (create_csv_file_lookup _ header fs) Hmain)
    as (rows & Hfs & _ & Hok).
  destruct (Hok eq_refl) as [Hlen Hlk].
  assert (Hfs' : fs' = <[log_filename h :=
                   default [header] (fs !! log_filename h) ++ rows]> fs).
  { rewrite Hfs. destruct (fs !! log_filename h) as [old |] eqn:Hold.
    - by rewrite create_csv_file_present.
    - rewrite create_csv_file_absent by done. by rewrite insert_insert_eq. }
  exists rows. split; [done |].
  split; [rewrite Hfs'; by rewrite lookup_insert_eq |].
  split; [rewrite Hlen; lia |]. split.
  - intros i k cls Hi Hk. destruct (Hlk i k cls Hi Hk) as (row & Hw & Hrow & _).
    eauto.
  - intros ->. simpl in Hlen. apply nil_length_inv in Hlen. subst rows.
    split; [done |]. intros Habs. rewrite Hfs', Habs. by rewrite lookup_insert_eq.
Qed.

(** The times the workers take have no influence on a run. *)
Lemma main_finish_irrelevant h finish' ds N (fs : Files) :
  main (mkHarness (today h) (spawn h) finish') ds N fs = main h ds N fs.
Proof.
  unfold main.
  change (log_filename (mkHarness (today h) (spawn h) finish')) with (log_filename h).
  generalize (create_csv_file (log_filename h) header fs).
  generalize 0. induction (Z.to_nat N) as [|n IH]; intros i fs0; [done |].
  cbn [main_loop]. rewrite !executor_map_sequential.
  change (worker (mkHarness (today h) (spawn h) finish') i) with (worker h i).
  change (log_filename (mkHarness (today h) (spawn h) finish')) with (log_filename h).
  destruct (sequential (worker h i) 0 ds) as [res | e]; [| done].
  destruct (append_to_csv_file (log_filename h) res fs0) as [[[] | e] fs1]; [| done].
  apply IH.
Qed.

(** C7. A run does not depend on the times the workers take: two harnesses
    that differ in them only give the same result and the same files. The
    rows of iteration [i] stand in the log in the order of registration, the
    row of the chrome class before the row of the firefox class; a run of
    [main(1)] that completes on an absent log leaves the header and two
    rows, tagged chrome and firefox. *)
Theorem rows_follow_registration_order h listdir available (N : Z) (fs fs' : Files) :
  AvailableBrowserDrivers listdir = Ok available ->
  main h (drivers_of available) N fs = Some (Ok tt, fs') ->
  (forall finish', main (mkHarness (today h) (spawn h) finish') (drivers_of available) N fs
                   = Some (Ok tt, fs')) /\
  exists rows,
    fs' !! log_filename h = Some (default [header] (fs !! log_filename h) ++ rows) /\
    length rows = Z.to_nat N * 2 /\
    (forall i, i < Z.to_nat N ->
       exists chrome_row firefox_row,
         rows !! (i * 2) = Some chrome_row /\ rows !! (i * 2 + 1) = Some firefox_row /\
         chrome_row !! 1 = Some (PStr "chrome") /\
         firefox_row !! 1 = Some (PStr "firefox")) /\
    (N = 1%Z -> fs !! log_filename h = None ->
       exists chrome_row firefox_row,
         fs' !! log_filename h = Some [header; chrome_row; firefox_row] /\
         chrome_row !! 1 = Some (PStr "chrome") /\
         firefox_row !! 1 = Some (PStr "firefox")).
Proof.
  intros Havail Hmain.
  assert (Hds : exists c f, drivers_of available = [c; f] /\
                            cls_kind c = Chrome /\ cls_kind f = Firefox).
  { unfold AvailableBrowserDrivers, define_ChromeDriver, define_FirefoxDriver in Havail.
    destruct (get_driver listdir "drivers/chrome") as [pc | e]; [| done].
    destruct (get_driver listdir "drivers/gecko") as [pf | e]; [| done].
    injection Havail as <-. simpl. eauto. }
  destruct Hds as (c & f & Hds & Hkc & Hkf). rewrite Hds in *.
  split.
  { intros finish'. rewrite <- Hmain. apply main_finish_irrelevant. }
  unfold main in Hmain.
  destruct (main_loop_rows h [c; f] _ _ _ _ _ _ (create_csv_file_lookup _ header fs) Hmain)
    as (rows & Hfs & _ & Hok).
  destruct (Hok eq_refl) as [Hlen Hlk]. simpl length in *.
  assert (Hlog : fs' !! log_filename h =
                 Some (default [header] (fs !! log_filename h) ++ rows)).
  { rewrite Hfs. by rewrite lookup_insert_eq. }
  assert (Hpair : forall i, i < Z.to_nat N ->
            exists chrome_row firefox_row,
              rows !! (i * 2) = Some chrome_row /\ rows !! (i * 2 + 1) = Some firefox_row /\
              chrome_row !! 1 = Some (PStr "chrome") /\
              firefox_row !! 1 = Some (PStr "firefox")).
  { intros i Hi.
    destruct (Hlk i 0 c Hi eq_refl) as (r1 & _ & Hr1 & Ht1).
    destruct (Hlk i 1 f Hi eq_refl) as (r2 & _ & Hr2 & Ht2).
    rewrite Hkc in Ht1. rewrite Hkf in Ht2. rewrite Nat.add_0_r in Hr1.
    exists r1, r2. done. }
  exists rows. split; [done |]. split; [done |]. split; [done |].
  intros -> Habs. destruct (Hpair 0) as (r1 & r2 & Hr1 & Hr2 & Ht1 & Ht2); [simpl; lia |].
  exists r1, r2. split; [| done]. rewrite Hlog, Habs. simpl.
  destruct rows as [|x [|y [|z rows]]]; simpl in Hlen, Hr1, Hr2; try discriminate.
  by injection Hr1 as ->; injection Hr2 as ->.
Qed.

Lemma main_keeps_log h ds N r (fs fs' : Files) :
  main h ds N fs = Some (r, fs') ->
  (fs !! log_filename h = None \/ log_ok (log_filename h) fs) ->
  log_ok (log_filename h) fs'.
Proof.
  intros Hmain Hfs. unfold main in Hmain.
  destruct (main_loop_rows h ds _ _ _ _ _ _ (create_csv_file_lookup _ header fs) Hmain)
    as (rows & -> & Hrec & _).
  destruct Hfs as [Habs | (old & Hold & Hrecs)].
  - exists rows. rewrite lookup_insert_eq, Habs. done.
  - exists (old ++ rows). rewrite lookup_insert_eq, Hold. simpl.
    split; [done | by apply Forall_app].
Qed.

Lemma runs_keep_log p ds (fs fs' : Files) :
  runs p ds fs fs' -> fs !! p = None -> log_ok p fs'.
Proof.
  induction 1 as [h N r fs fs' <- Hmain | h N r fs fs1 fs' _ IH <- Hmain]; intros Habs.
  - eapply main_keeps_log; [done | by left].
  - eapply main_keeps_log; [done | right; by apply IH].
Qed.

(** C8. [create_csv_file] writes the header when the file is absent, and
    then only: on a file that exists it changes nothing, in this file or in
    any other. So after any number of runs on a log that was absent before
    the first, the log is the header followed by records, none of which is
    the header: the header is there exactly once. *)
Theorem create_csv_file_writes_header_once file_path hd ds (fs fs1 fs' : Files) :
  (fs !! file_path = None ->
   create_csv_file file_path hd fs = <[file_path := [hd]]> fs) /\
  (is_Some (fs1 !! file_path) -> create_csv_file file_path hd fs1 = fs1) /\
  (fs !! file_path = None -> runs file_path ds fs fs' ->
   exists rows, fs' !! file_path = Some (header :: rows) /\ header ∉ rows).
Proof.
  split; [apply create_csv_file_absent |]. split; [apply create_csv_file_present |].
  intros Habs Hruns.
  destruct (runs_keep_log _ _ _ _ Hruns Habs) as (rows & Hlog & Hrec).
  exists rows. split; [done |]. intros Hin.
  rewrite Forall_forall in Hrec. by apply header_not_record, Hrec.
Qed.

(** C9. When an options object is given to the constructor of a driver
    class, the parameters [headless] and [user_agent] change nothing: the
    outcome and the whole trace are the same for all their values, the
    session is started with the object as it was given, the driver holds it
    unchanged, and nothing is printed before the session starts. *)
Theorem options_given_are_used_as_is path headless headless' wait agent agent' o w :
  ChromeDriver_init path headless wait agent (Some o) w =
    ChromeDriver_init path headless' wait agent' (Some o) w /\
  FirefoxDriver_init path headless wait agent (Some o) w =
    FirefoxDriver_init path headless' wait agent' (Some o) w /\
  (exists rest, trace (snd (ChromeDriver_init path headless wait agent (Some o) w)) =
                trace w ++ ECall (NewSession "chrome" path o) :: rest) /\
  (exists rest, trace (snd (FirefoxDriver_init path headless wait agent (Some o) w)) =
                trace w ++ ECall (NewSession "firefox" path o) :: rest) /\
  (forall d, fst (ChromeDriver_init path headless wait agent (Some o) w) = Ok d ->
             options d = o /\ window_size d = None) /\
  (forall d, fst (FirefoxDriver_init path headless wait agent (Some o) w) = Ok d ->
             options d = o /\ window_size d = None).
Proof.
  split; [reflexivity |]. split; [reflexivity |].
  unfold ChromeDriver_init, FirefoxDriver_init, bind, ret, call. simpl.
  repeat split.
  - destruct (replies w (ncalls w) _); simpl; [| eauto].
    destruct (replies w (S (ncalls w)) _); simpl; rewrite <- app_assoc; eauto.
  - destruct (replies w (ncalls w) _); simpl; [| eauto].
    destruct (replies w (S (ncalls w)) _); simpl; [| rewrite <- app_assoc; eauto].
    destruct (replies w (S (S (ncalls w))) _); simpl; rewrite <- !app_assoc; eauto.
  - revert H. destruct (replies w (ncalls w) _); simpl; [| done].
    destruct (replies w (S (ncalls w)) _); simpl; [| done]. by intros [= <-].
  - revert H. destruct (replies w (ncalls w) _); simpl; [| done].
    destruct (replies w (S (ncalls w)) _); simpl; [| done]. by intros [= <-].
  - revert H. destruct (replies w (ncalls w) _); simpl; [| done].
    destruct (replies w (S (ncalls w)) _); simpl; [| done].
    destruct (replies w (S (S (ncalls w))) _); simpl; [| done]. by intros [= <-].
  - revert H. destruct (replies w (ncalls w) _); simpl; [| done].
    destruct (replies w (S (ncalls w)) _); simpl; [| done].
    destruct (replies w (S (S (ncalls w))) _); simpl; [| done]. by intros [= <-].
Qed.

(** Without an options object the two parameters do matter. *)
Example headless_without_options :
  fst (ChromeDriver_init "chromedriver" true 10 None None (good_world 0)) =
  Ok (mkDriver "chrome" (mkOptions ["headless"; "--window-size=1920,1080"] ∅) None).
Proof. vm_compute. reflexivity. Qed.

(** C10. [append_to_csv_file] on an empty list raises IndexError: [data[0]]
    is evaluated whatever the data. The file has been opened for appending
    by then, so it exists afterwards, with the rows it had and no new one. *)
Theorem append_empty_raises file_path (fs : Files) :
  fst (append_to_csv_file file_path [] fs) = Raise IndexError /\
  snd (append_to_csv_file file_path [] fs) !! file_path
    = Some (default [] (fs !! file_path)) /\
  (forall q, q <> file_path ->
     snd (append_to_csv_file file_path [] fs) !! q = fs !! q).
Proof.
  unfold append_to_csv_file, open_append. simpl.
  split; [done |]. split; [by rewrite lookup_insert_eq |].
  intros q Hq. by rewrite lookup_insert_ne.
Qed.

(** ** The harness on the concrete worlds *)

(** Two iterations on an absent log: the header and four rows. *)
Example two_iterations :
  files_after 2 !! log_filename good_harness =
  Some [header;
        [PInt 1; PStr "chrome"; PFloat (357 # 100); PStr ""; PStr ""; PStr ""; PStr ""; PStr ""];
        [PInt 1; PStr "firefox"; PFloat (357 # 100); PStr ""; PStr ""; PStr ""; PStr ""; PStr ""];
        [PInt 1; PStr "chrome"; PFloat (357 # 100); PStr ""; PStr ""; PStr ""; PStr ""; PStr ""];
        [PInt 1; PStr "firefox"; PFloat (357 # 100); PStr ""; PStr ""; PStr ""; PStr ""; PStr ""]].
Proof. vm_compute. reflexivity. Qed.

Lemma main_appends_one_row_per_pair_witness :
  exists rows,
    files_after 2 =
      <[log_filename good_harness :=
          default [header] ((∅ : Files) !! log_filename good_harness) ++ rows]> ∅ /\
    files_after 2 !! log_filename good_harness =
      Some (default [header] ((∅ : Files) !! log_filename good_harness) ++ rows) /\
    Z.of_nat (length rows) = (2 * Z.of_nat (length two_drivers))%Z /\
    (forall i k cls, i < Z.to_nat 2 -> two_drivers !! k = Some cls ->
       exists row, worker good_harness i k cls = Ok (PList row) /\
                   rows !! (i * length two_drivers + k) = Some row) /\
    (2%Z = 0%Z -> rows = [] /\
       ((∅ : Files) !! log_filename good_harness = None ->
        files_after 2 !! log_filename good_harness = Some [header])).
Proof.
  apply (main_appends_one_row_per_pair good_harness two_drivers 2 ∅ (files_after 2)).
  - lia.
  - vm_compute. reflexivity.
Defined.

Lemma rows_follow_registration_order_witness :
  (forall finish',
     main (mkHarness (today good_harness) (spawn good_harness) finish')
          (drivers_of registered) 1 ∅ = Some (Ok tt, files_after_one)) /\
  exists rows,
    files_after_one !! log_filename good_harness =
      Some (default [header] ((∅ : Files) !! log_filename good_harness) ++ rows) /\
    length rows = Z.to_nat 1 * 2 /\
    (forall i, i < Z.to_nat 1 ->
       exists chrome_row firefox_row,
         rows !! (i * 2) = Some chrome_row /\ rows !! (i * 2 + 1) = Some firefox_row /\
         chrome_row !! 1 = Some (PStr "chrome") /\
         firefox_row !! 1 = Some (PStr "firefox")) /\
    (1%Z = 1%Z -> (∅ : Files) !! log_filename good_harness = None ->
       exists chrome_row firefox_row,
         files_after_one !! log_filename good_harness =
           Some [header; chrome_row; firefox_row] /\
         chrome_row !! 1 = Some (PStr "chrome") /\
         firefox_row !! 1 = Some (PStr "firefox")).
Proof.
  apply (rows_follow_registration_order good_harness one_binary_each registered 1 ∅
           files_after_one).
  - reflexivity.
  - vm_compute. reflexivity.
Defined.

(** The first run, of two iterations, starts on no log; the second, of one
    iteration, finds the log of the first. *)
Example runs_two_iterations :
  runs (log_filename good_harness) two_drivers ∅ (files_after 2).
Proof.
  apply (runs_one _ _ good_harness 2 (Ok tt)); [reflexivity |].
  vm_compute. reflexivity.
Qed.

Example runs_a_second_time :
  runs (log_filename good_harness) two_drivers ∅ files_after_again.
Proof.
  apply (runs_more _ _ good_harness 1 (Ok tt) ∅ (files_after 2));
    [apply runs_two_iterations | reflexivity |].
  vm_compute. reflexivity.
Qed.

Example log_exists_after_first_run :
  is_Some (files_after 2 !! log_filename good_harness).
Proof. vm_compute. eexists. reflexivity. Qed.

Lemma create_csv_file_writes_header_once_witness :
  let p := log_filename good_harness in
  ((∅ : Files) !! p = None /\
   is_Some (files_after 2 !! p) /\
   runs p two_drivers ∅ files_after_again) /\
  create_csv_file p header ∅ = <[p := [header]]> ∅ /\
  create_csv_file p header (files_after 2) = files_after 2 /\
  exists rows, files_after_again !! p = Some (header :: rows) /\ header ∉ rows.
Proof.
  intros p.
  destruct (create_csv_file_writes_header_once p header two_drivers
              ∅ (files_after 2) files_after_again) as (Habsent & Hpresent & Honce).
  split; [split; [reflexivity |]; split;
          [apply log_exists_after_first_run | apply runs_a_second_time] |].
  split; [apply Habsent; reflexivity |].
  split; [apply Hpresent, log_exists_after_first_run |].
  apply Honce; [reflexivity | apply runs_a_second_time].
Defined.

(** The log after the two runs: the header, the four rows of the first run
    and the two rows of the second. *)
Example log_after_two_runs :
  exists rows,
    files_after_again !! log_filename good_harness = Some (header :: rows) /\
    length rows = 6.
Proof. vm_compute. eexists. split; reflexivity. Qed.

(** * Further properties *)

(** ** The driver classes *)

(** X1. The registry exists exactly when both drivers directories can be
    listed and hold an entry; it is then the chrome class followed by the
    firefox class, each with the first entry of its directory as executable,
    whatever the other entries are. A missing gecko binary leaves no chrome
    class either. *)
Theorem registry_needs_both_binaries listdir available :
  AvailableBrowserDrivers listdir = Ok available <->
  exists c cs g gs,
    listdir "drivers/chrome" = Ok (c :: cs) /\
    listdir "drivers/gecko" = Ok (g :: gs) /\
    available =
      [("chrome", mkDriverClass Chrome (path_join "drivers/chrome" c));
       ("firefox", mkDriverClass Firefox (path_join "drivers/gecko" g))].
Proof.
  unfold AvailableBrowserDrivers, define_ChromeDriver, define_FirefoxDriver, get_driver.
  split.
  - destruct (listdir "drivers/chrome") as [[|c cs] | e]; try discriminate.
    destruct (listdir "drivers/gecko") as [[|g gs] | e]; try discriminate.
    intros [= <-]. by exists c, cs, g, gs.
  - intros (c & cs & g & gs & -> & -> & ->). reflexivity.
Qed.

(** X2. A chrome driver constructed without an options object starts its
    session with fresh options holding the user agent argument (when the
    agent is neither None nor empty) followed by the two headless arguments
    (when headless), and no preference; the mode is printed first, the
    implicit wait is set after the session has started. *)
Theorem chrome_session_options path headless wait agent w d w' :
  ChromeDriver_init path headless wait agent None w = (Ok d, w') ->
  d = mkDriver "chrome"
        (mkOptions (user_agent_arguments agent ++ headless_arguments headless) ∅) None /\
  trace w' = trace w ++
    [EPrint (if headless then "WebDriver: Mode = Headless." else "WebDriver: Mode = Normal.");
     ECall (NewSession "chrome" path (options d));
     ECall (ImplicitlyWait wait)].
Proof.
  unfold ChromeDriver_init, ChromeDriver_set_user_agent, ChromeDriver_set_headless,
    user_agent_arguments, headless_arguments, bind, ret, print, call.
  destruct (agent_truthy agent), headless; simpl;
    repeat match goal with
           | |- context [match replies ?w ?n ?c with _ => _ end] =>
               destruct (replies w n c)
           end; intros H; try discriminate H; injection H as <- <-;
    simpl; rewrite <- !app_assoc; done.
Qed.

(** X3. A firefox driver constructed without an options object starts its
    session with the argument headless (when headless) and the user agent
    as the preference general.useragent.override (when the agent is neither
    None nor empty). Its window is always set to 360x640, also when
    headless: 1920x1080 is stored in the attribute [window_size] and never
    sent to the session. *)
Theorem firefox_session_options path headless wait agent w d w' :
  FirefoxDriver_init path headless wait agent None w = (Ok d, w') ->
  d = mkDriver "firefox"
        (mkOptions (if headless then ["headless"] else []) (user_agent_preferences agent))
        (if headless then Some (1920, 1080)%Z else None) /\
  trace w' = trace w ++
    [EPrint (if headless then "WebDriver firefox: Mode = Headless."
             else "WebDriver firefox: Mode = Normal.");
     ECall (NewSession "firefox" path (options d));
     ECall (ImplicitlyWait wait);
     ECall (SetWindowSize 360 640)].
Proof.
  unfold FirefoxDriver_init, FirefoxDriver_set_user_agent, FirefoxDriver_set_headless,
    user_agent_preferences, bind, ret, print, call.
  destruct (agent_truthy agent), headless; simpl;
    repeat match goal with
           | |- context [match replies ?w ?n ?c with _ => _ end] =>
               destruct (replies w n c)
           end; intros H; try discriminate H; injection H as <- <-;
    simpl; rewrite <- !app_assoc; done.
Qed.

Lemma chrome_session_options_witness :
  let w := good_world 0 in
  let r := ChromeDriver_init "chromedriver" true 10 (Some "agent") None w in
  let d := mkDriver "chrome"
             (mkOptions (user_agent_arguments (Some "agent") ++ headless_arguments true) ∅)
             None in
  d = mkDriver "chrome"
        (mkOptions (user_agent_arguments (Some "agent") ++ headless_arguments true) ∅) None /\
  trace (snd r) = trace w ++
    [EPrint "WebDriver: Mode = Headless.";
     ECall (NewSession "chrome" "chromedriver" (options d));
     ECall (ImplicitlyWait 10)].
Proof.
  intros w r d.
  apply (chrome_session_options "chromedriver" true 10 (Some "agent") w d (snd r)).
  run.
Defined.

Lemma firefox_session_options_witness :
  let w := good_world 1 in
  let r := FirefoxDriver_init "geckodriver" true 15 (Some "agent") None w in
  let d := mkDriver "firefox"
             (mkOptions ["headless"] (user_agent_preferences (Some "agent")))
             (Some (1920, 1080)%Z) in
  d = mkDriver "firefox"
        (mkOptions ["headless"] (user_agent_preferences (Some "agent")))
        (Some (1920, 1080)%Z) /\
  trace (snd r) = trace w ++
    [EPrint "WebDriver firefox: Mode = Headless.";
     ECall (NewSession "firefox" "geckodriver" (options d));
     ECall (ImplicitlyWait 15);
     ECall (SetWindowSize 360 640)].
Proof.
  intros w r d.
  apply (firefox_session_options "geckodriver" true 15 (Some "agent") w d (snd r)).
  run.
Defined.

(** X4. When the session has started and a later step of the constructor
    raises, the error leaves [test_expandable] as it is and the session is
    never closed: the call of the class stands before the [try]. *)
Theorem session_not_closed_when_setup_fails cls w e w1 :
  construct cls the_user_agent w = (Raise e, w1) ->
  (forall o, exists v,
     replies w (ncalls w)
       (NewSession (browser_tag (cls_kind cls)) (cls_executable_path cls) o) = Ok v) ->
  test_expandable cls w = (Raise e, w1) /\
  (exists o tr, trace w1 = trace w ++ tr /\
     In (ECall (NewSession (browser_tag (cls_kind cls)) (cls_executable_path cls) o)) tr) /\
  count_close (trace w1) = count_close (trace w).
Proof.
  intros Hc Hstart.
  split; [by rewrite test_expandable_eq, Hc |].
  split.
  2: { pose proof (quiet_construct cls the_user_agent w) as Hq. rewrite Hc in Hq.
       by apply continues_count_close. }
  revert Hc. unfold construct. destruct (cls_kind cls); simpl in *.
  - unfold ChromeDriver_init, ChromeDriver_set_user_agent, ChromeDriver_set_headless,
      bind, ret, print, call.
    destruct (agent_truthy the_user_agent); simpl;
      match goal with
      | |- context [replies w (ncalls w) (NewSession _ _ ?o)] =>
          destruct (Hstart o) as [v ->]
      end;
      destruct (replies w (S (ncalls w)) _); intros H; try discriminate H;
      injection H as _ <-; simpl; rewrite <- !app_assoc;
      (eexists; eexists; split; [reflexivity | simpl; eauto]).
  - unfold FirefoxDriver_init, FirefoxDriver_set_user_agent, FirefoxDriver_set_headless,
      bind, ret, print, call.
    destruct (agent_truthy the_user_agent); simpl;
      match goal with
      | |- context [replies w (ncalls w) (NewSession _ _ ?o)] =>
          destruct (Hstart o) as [v ->]
      end;
      destruct (replies w (S (ncalls w)) _); simpl;
      try destruct (replies w (S (S (ncalls w))) _); intros H; try discriminate H;
      injection H as _ <-; simpl; rewrite <- !app_assoc;
      (eexists; eexists; split; [reflexivity | simpl; eauto]).
Qed.

Lemma session_not_closed_when_setup_fails_witness :
  let w := world_of setup_fails_replies in
  let e := mkExn "WebDriverException" true [] in
  let w1 := snd (construct chrome_class the_user_agent w) in
  test_expandable chrome_class w = (Raise e, w1) /\
  (exists o tr, trace w1 = trace w ++ tr /\
     In (ECall (NewSession (browser_tag (cls_kind chrome_class))
                           (cls_executable_path chrome_class) o)) tr) /\
  count_close (trace w1) = count_close (trace w).
Proof.
  intros w e w1.
  apply (session_not_closed_when_setup_fails chrome_class w e w1).
  - run.
  - intros o. exists PNone. reflexivity.
Defined.

(** ** The scenario *)

Lemma framed_ts {A} src ln text (m : M A) :
  ln ∈ scenario_lines -> framed src (ts ln text m).
Proof.
  intros Hln w e w' Hsrc. unfold ts, stmt.
  destruct (m w) as [[a | e0] w0]; intros H; [discriminate H |].
  injection H as <- <-. simpl. eexists; eexists. split; [reflexivity |].
  split; [simpl; by rewrite Hsrc |]. split; [reflexivity | exact Hln].
Qed.

Lemma framed_bind {A B} src (m : M A) (k : A -> M B) :
  framed src m -> quiet m -> (forall a, framed src (k a)) -> framed src (bind m k).
Proof.
  intros Hm Hq Hk w e w' Hsrc. unfold bind.
  pose proof (Hq w) as (_ & _ & Hs & _).
  destruct (m w) as [[a | e0] w0] eqn:Hmw; simpl in Hs.
  - apply Hk. congruence.
  - intros [= <- <-]. by eapply Hm.
Qed.

Ltac framed_tac :=
  repeat first
    [ apply framed_ts; unfold scenario_lines; set_solver
    | apply framed_bind; [| unfold ts; quiet_tac | intros ?] ].

(** X5. Every exception that leaves [test_scenario] carries on top of its
    traceback a frame of [test_scenario], in test_expandable.py, at the line
    of one of its statements. *)
Theorem scenario_exception_frame driver w e w' :
  test_scenario driver w = (Raise e, w') ->
  exists f rest,
    exc_tb e = f :: rest /\ scenario_frame (src_dir w) scenario_lines f.
Proof.
  intros H.
  assert (Hf : framed (src_dir w) (test_scenario driver)).
  { unfold test_scenario, get_element_by_css_selector,
      switch_to_iframe_by_css_selector, switch_back_to_parent_frame, __wait_executor.
    framed_tac. }
  by eapply Hf.
Qed.

Lemma scenario_exception_frame_witness :
  let w := tick (snd (construct chrome_class the_user_agent
                        (world_of banner_missing_replies))) in
  let e := through frame_29 TimeoutException in
  exists f rest,
    exc_tb e = f :: rest /\ scenario_frame (src_dir w) scenario_lines f.
Proof.
  intros w e.
  apply (scenario_exception_frame chrome_driver w e (snd (test_scenario chrome_driver w))).
  run.
Defined.

Lemma obedient_continues w w' : continues w w' -> obedient w -> obedient w'.
Proof. intros (Hr & _) Ho n c. rewrite Hr. apply Ho. Qed.

Lemma asserting_ts_call src ln text c : asserting src (ts ln text (call c)).
Proof.
  intros w e w' _ Ho. unfold ts, stmt, call.
  destruct (Ho (ncalls w) c) as [v ->]. intros H. discriminate H.
Qed.

Lemma asserting_ts_assert src ln text c :
  ln ∈ assert_lines -> asserting src (ts ln text (assert_ c)).
Proof.
  intros Hln w e w' Hsrc _. unfold ts, stmt, assert_.
  destruct c; intros H; [discriminate H |]. injection H as <- <-.
  eexists. left. split; [reflexivity |].
  split; [simpl; by rewrite Hsrc |]. split; [reflexivity | exact Hln].
Qed.

Lemma asserting_ts_call_assert src ln text c (g : pyval -> bool) :
  ln ∈ assert_lines ->
  asserting src (ts ln text (v <- call c ;; assert_ (g v))).
Proof.
  intros Hln w e w' Hsrc Ho. unfold ts, stmt, bind, call, assert_.
  destruct (Ho (ncalls w) c) as [v ->].
  destruct (g v); intros H; [discriminate H |]. injection H as <- <-.
  eexists. left. split; [reflexivity |].
  split; [simpl; by rewrite Hsrc |]. split; [reflexivity | exact Hln].
Qed.

Lemma method_call_obedient element c w e w' :
  obedient w -> method_call element c w = (Raise e, w') ->
  e = AttributeError /\ w' = w.
Proof.
  intros Ho. unfold method_call, call, raise.
  destruct (Ho (ncalls w) c) as [v Hv].
  destruct element; try (intros [= <- <-]; by split).
  rewrite Hv. intros H. discriminate H.
Qed.

Lemma asserting_ts_method src ln text element c :
  ln ∈ method_lines -> asserting src (ts ln text (method_call element c)).
Proof.
  intros Hln w e w' Hsrc Ho. unfold ts, stmt.
  destruct (method_call element c w) as [[v | e0] w0] eqn:Hm;
    intros H; [discriminate H |]. injection H as <- <-.
  destruct (method_call_obedient _ _ _ _ _ Ho Hm) as [-> ->].
  eexists. right. split; [reflexivity |].
  split; [simpl; by rewrite Hsrc |]. split; [reflexivity | exact Hln].
Qed.

Lemma asserting_ts_method_assert src ln text element c (g : pyval -> bool) :
  ln ∈ assert_lines -> ln ∈ method_lines ->
  asserting src (ts ln text (v <- method_call element c ;; assert_ (g v))).
Proof.
  intros Hla Hlm w e w' Hsrc Ho. unfold ts, stmt, bind.
  destruct (method_call element c w) as [[v | e0] w0] eqn:Hm.
  - unfold assert_. destruct (g v); intros H; [discriminate H |].
    injection H as <- <-.
    eexists. left. split; [reflexivity |].
    split; [simpl; by rewrite Hsrc |]. split; [reflexivity | exact Hla].
  - intros H. injection H as <- <-.
    destruct (method_call_obedient _ _ _ _ _ Ho Hm) as [-> ->].
    eexists. right. split; [reflexivity |].
    split; [simpl; by rewrite Hsrc |]. split; [reflexivity | exact Hlm].
Qed.

Lemma asserting_bind {A B} src (m : M A) (k : A -> M B) :
  asserting src m -> quiet m -> (forall a, asserting src (k a)) ->
  asserting src (bind m k).
Proof.
  intros Hm Hq Hk w e w' Hsrc Ho. unfold bind.
  pose proof (Hq w) as Hcont.
  destruct (m w) as [[a | e0] w0] eqn:Hmw; simpl in Hcont.
  - apply Hk; [destruct Hcont as (_ & _ & Hs & _); congruence |].
    by eapply obedient_continues.
  - intros [= <- <-]. by eapply Hm.
Qed.

Ltac asserting_tac :=
  repeat first
    [ apply asserting_ts_call
    | apply asserting_ts_assert; unfold assert_lines; set_solver
    | apply asserting_ts_call_assert; unfold assert_lines; set_solver
    | apply asserting_ts_method; unfold method_lines; set_solver
    | apply asserting_ts_method_assert;
        [unfold assert_lines; set_solver | unfold method_lines; set_solver]
    | apply asserting_bind; [| unfold ts; quiet_tac | intros ?] ].

Lemma asserting_test_scenario src driver : asserting src (test_scenario driver).
Proof.
  unfold test_scenario, get_element_by_css_selector,
    switch_to_iframe_by_css_selector, switch_back_to_parent_frame, __wait_executor.
  asserting_tac.
Qed.

(** X6. When no call of the engine raises, [test_scenario] can only fail in
    one of its own statements: by one of its eight [assert] statements (an
    AssertionError), or by calling [is_displayed] or [click] on a value that
    is no element, such as the [None] a wait may return (an AttributeError at
    one of the seven statements that make such a call).  Either way the
    traceback is the single frame of that statement. *)
Theorem scenario_fails_in_own_statement driver w e w' :
  obedient w ->
  test_scenario driver w = (Raise e, w') ->
  exists f, exc_tb e = [f] /\
    ((e = through f AssertionError /\
      scenario_frame (src_dir w) assert_lines f) \/
     (e = through f AttributeError /\
      scenario_frame (src_dir w) method_lines f)).
Proof.
  intros Ho H.
  destruct (asserting_test_scenario (src_dir w) driver w e w' eq_refl Ho H)
    as (f & [[-> Hf] | [-> Hf]]); exists f; (split; [reflexivity |]);
    [left | right]; by split.
Qed.

Lemma modal_none_obeys n c : exists v, modal_none_replies n c = Ok v.
Proof.
  destruct c; simpl; try (eexists; reflexivity).
  destruct (String.eqb _ _); eexists; reflexivity.
Qed.

Lemma scenario_fails_in_own_statement_witness :
  let w := tick (snd (construct chrome_class the_user_agent
                        (world_of modal_none_replies))) in
  let f := mkFrame "/app/test_expandable.py" 43 "test_scenario"
             "assert modal_div_element.is_displayed()" in
  exists f', exc_tb (through f AttributeError) = [f'] /\
    ((through f AttributeError = through f' AssertionError /\
      scenario_frame (src_dir w) assert_lines f') \/
     (through f AttributeError = through f' AttributeError /\
      scenario_frame (src_dir w) method_lines f')).
Proof.
  intros w f.
  apply (scenario_fails_in_own_statement chrome_driver w
           (through f AttributeError)
           (snd (test_scenario chrome_driver w))).
  - intros n c. apply modal_none_obeys.
  - run.
Defined.

(** The same on an engine whose logo stays displayed after the click: the
    assertion of line 51 fails. *)
Example logo_stays_fails_line_51 :
  fst (test_scenario chrome_driver
         (tick (snd (construct chrome_class the_user_agent
                       (world_of logo_stays_replies))))) =
  Raise (through (mkFrame "/app/test_expandable.py" 51 "test_scenario"
                    "assert not celtra_logo.is_displayed()") AssertionError).
Proof. vm_compute. reflexivity. Qed.

Lemma calls_ret {A} (a : A) : calls 0 (ret a).
Proof. intros w. simpl. split; [lia | intros; lia]. Qed.

Lemma calls_assert c : calls 0 (assert_ c).
Proof. intros w. destruct c; simpl; (split; [lia | intros; lia]). Qed.

Lemma calls_call c : calls 1 (call c).
Proof. intros w. simpl. split; [lia | intros; lia]. Qed.

Lemma calls_method_call element c : calls 1 (method_call element c).
Proof.
  intros w. destruct element; simpl;
    first [ split; [lia | intros a H; discriminate H]
          | split; [lia | intros; lia] ].
Qed.

Lemma calls_stmt {A} n file ln func text (m : M A) :
  calls n m -> calls n (stmt file ln func text m).
Proof.
  intros Hm w. unfold stmt. destruct (Hm w) as [Hle Heq].
  destruct (m w) as [[a | e] w0]; simpl in *; [by split |].
  split; [done |]. intros a H. discriminate H.
Qed.

Lemma calls_bind {A B} n k t (m : M A) (f : A -> M B) :
  calls n m -> (forall a, calls k (f a)) -> t = n + k -> calls t (bind m f).
Proof.
  intros Hm Hf -> w. unfold bind. destruct (Hm w) as [Hle Heq].
  destruct (m w) as [[a | e] w0]; simpl in *.
  - specialize (Heq a eq_refl). destruct (Hf a w0) as [Hle' Heq'].
    split; [lia |]. intros b Hb. rewrite (Heq' b Hb). lia.
  - split; [lia |]. intros a H. discriminate H.
Qed.

Ltac calls_tac :=
  repeat first
    [ apply calls_ret | apply calls_assert | apply calls_call
    | apply calls_method_call
    | apply calls_stmt
    | eapply calls_bind; [| intros ? |] ].

(** X7. [test_scenario] makes at most 17 calls out of the process (16 of
    the engine and the pause), and exactly 17 when it returns; it never reads
    the clock and never closes the session. *)
Theorem scenario_footprint driver w :
  let w' := snd (test_scenario driver w) in
  (ncalls w' <= ncalls w + 17)%nat /\
  (fst (test_scenario driver w) = Ok tt -> ncalls w' = (ncalls w + 17)%nat) /\
  nreads w' = nreads w /\
  exists tr, trace w' = trace w ++ tr /\ Forall calm tr.
Proof.
  intros w'.
  assert (Hc : calls 17 (test_scenario driver)).
  { unfold test_scenario, ts, get_element_by_css_selector,
      switch_to_iframe_by_css_selector, switch_back_to_parent_frame, __wait_executor.
    calls_tac; reflexivity. }
  destruct (Hc w) as [Hle Heq].
  destruct (quiet_test_scenario driver w) as (_ & _ & _ & Hn & Htr).
  split; [exact Hle |]. split; [apply Heq |]. split; [exact Hn | exact Htr].
Qed.

(** ** The outcome recorder, further *)

Lemma still_ret {A} (a : A) : still (ret a).
Proof. by intros w. Qed.

Lemma still_raise {A} (e : exn) : still (@raise A e).
Proof. by intros w. Qed.

Lemma still_now : still now.
Proof. by intros w. Qed.

Lemma still_print s : still (print s).
Proof. by intros w. Qed.

Lemma still_bind {A B} (m : M A) (k : A -> M B) :
  still m -> (forall a, still (k a)) -> still (bind m k).
Proof.
  intros Hm Hk w. unfold bind. destruct (Hm w) as [Hn Hr].
  destruct (m w) as [[a | e] w0]; simpl in *; [| done].
  destruct (Hk a w0) as [Hn' Hr']. split; congruence.
Qed.

Ltac still_tac :=
  repeat first
    [ apply still_ret | apply still_raise | apply still_now | apply still_print
    | apply still_bind; [| intros ?] ].

Lemma still_elapsed_seconds self : still (elapsed_seconds self).
Proof. unfold elapsed_seconds. destruct (Qeq_bool _ _); still_tac. Qed.

Lemma still_stop self : still (TimeMeasure_stop self).
Proof.
  unfold TimeMeasure_stop, logging_function.
  apply still_bind; [apply still_now | intros t].
  apply still_bind; [apply still_elapsed_seconds | intros r].
  apply still_bind; [apply still_ret | intros _].
  apply still_elapsed_seconds.
Qed.

Lemma still_except_block driver timer e : still (except_block driver timer e).
Proof.
  unfold except_block, analyse_error.
  apply still_bind.
  - destruct (last (exc_tb e)); [| apply still_raise].
    apply still_bind; [apply still_print | intros _; apply still_ret].
  - intros error_data.
    apply still_bind; [apply still_elapsed_seconds | intros r; apply still_ret].
Qed.

Lemma finally_block_fails timer w e' :
  replies w (ncalls w) Close = Raise e' ->
  exists w', finally_block timer w = (Raise e', w').
Proof.
  intros Hclose. unfold finally_block, bind.
  destruct (timing_stop timer w) as ([r Hr] & _).
  destruct (still_stop timer w) as [Hn Hrep].
  destruct (TimeMeasure_stop timer w) as [r' w1]. simpl in *. subst r'.
  unfold call. rewrite Hn, Hrep, Hclose. eauto.
Qed.

(** X8. When the call of [close] in the [finally] block raises, its
    exception is what [test_expandable] raises, whatever the scenario did:
    the record of a scenario that returned or raised an [Exception] is lost,
    and an exception of the scenario outside [Exception] is replaced. *)
Theorem close_error_replaces_outcome cls w driver w1 r w3 e' :
  construct cls the_user_agent w = (Ok driver, w1) ->
  test_scenario driver (tick w1) = (r, w3) ->
  replies w (ncalls w3) Close = Raise e' ->
  exists w', test_expandable cls w = (Raise e', w').
Proof.
  intros Hc Hs Hclose.
  rewrite test_expandable_eq, Hc. unfold try_statement, stmt. rewrite Hs.
  destruct (scenario_world _ _ _ _ _ Hc) as (Hr1 & _).
  destruct (scenario_end _ _ _ _ Hs) as (Hr3 & _). simpl in Hr3.
  assert (Hclose3 : replies w3 (ncalls w3) Close = Raise e') by congruence.
  destruct r as [[] | e].
  - destruct (finally_block_fails (started w1) w3 e' Hclose3) as [w4 Hf].
    unfold bind. rewrite Hf. eauto.
  - cbn [through exc_is_Exception]. destruct (exc_is_Exception e).
    + match goal with
      | |- context [except_block driver (started w1) ?e0 w3] =>
          destruct (still_except_block driver (started w1) e0 w3) as [Hn Hrep];
          destruct (except_block driver (started w1) e0 w3) as [[[retval tm] | e1] w4]
      end; simpl in Hn, Hrep.
      * destruct (finally_block_fails tm w4 e') as [w5 Hf]; [congruence |].
        unfold bind. rewrite Hf. eauto.
      * destruct (finally_block_fails (started w1) w4 e') as [w5 Hf]; [congruence |].
        unfold bind. rewrite Hf. eauto.
    + destruct (finally_block_fails (started w1) w3 e' Hclose3) as [w4 Hf].
      unfold bind. rewrite Hf. eauto.
Qed.

Lemma close_error_replaces_outcome_witness :
  let w := world_of close_fails_replies in
  exists w', test_expandable chrome_class w =
             (Raise (mkExn "InvalidSessionIdException" true []), w').
Proof.
  intros w.
  apply (close_error_replaces_outcome chrome_class w chrome_driver
           (snd (construct chrome_class the_user_agent w)) (Ok tt)
           (snd (test_scenario chrome_driver
                   (tick (snd (construct chrome_class the_user_agent w)))))).
  - run.
  - run.
  - reflexivity.
Defined.

(** X9. An exception of the scenario that does not derive from [Exception]
    leaves [test_expandable] with the frame of the call of the scenario on
    top of its traceback, once the [finally] block has stopped the timer and
    closed the session, exactly once. *)
Theorem base_exception_propagates cls w driver w1 e w3 :
  construct cls the_user_agent w = (Ok driver, w1) ->
  test_scenario driver (tick w1) = (Raise e, w3) ->
  exc_is_Exception e = false ->
  close_safe w ->
  exists w', test_expandable cls w = (Raise (through (call_site w) e), w') /\
             count_close (trace w') = count_close (trace w3) + 1.
Proof.
  intros Hc Hs Hexc Hsafe.
  rewrite test_expandable_eq, Hc. unfold try_statement, stmt. rewrite Hs.
  cbn [through exc_is_Exception]. rewrite Hexc.
  destruct (scenario_world _ _ _ _ _ Hc) as (Hr1 & _ & Hsrc & _).
  destruct (scenario_end _ _ _ _ Hs) as (Hr3 & _). simpl in Hr3.
  assert (Hsafe3 : close_safe w3).
  { apply (close_safe_replies w); [congruence | done]. }
  destruct (finally_block_returns (started w1) w3 Hsafe3) as (tm & w4 & Hf & _).
  pose proof (finally_block_closes_once (started w1) (fun tm => ret tm) w3
                (fun tm => keeps_quiet _ (quiet_ret tm))) as Hcount.
  unfold bind in *. rewrite Hf in *. simpl in Hcount.
  exists w4. split; [| exact Hcount].
  unfold raise, call_site, through. simpl. by rewrite Hsrc.
Qed.

Lemma base_exception_propagates_witness :
  let w := world_of interrupted_replies in
  let e := through frame_36 KeyboardInterrupt in
  let w3 := snd (test_scenario chrome_driver
                   (tick (snd (construct chrome_class the_user_agent w)))) in
  exists w', test_expandable chrome_class w = (Raise (through (call_site w) e), w') /\
             count_close (trace w') = count_close (trace w3) + 1.
Proof.
  intros w e w3. subst w3.
  apply (base_exception_propagates chrome_class w chrome_driver
           (snd (construct chrome_class the_user_agent w)) e
           (snd (test_scenario chrome_driver
                   (tick (snd (construct chrome_class the_user_agent w)))))).
  - run.
  - run.
  - reflexivity.
  - apply close_safe_interrupted.
Defined.

(** X10. A record has as many cells as the header of the log has columns:
    eight, on the success path and on the failure path. *)
Theorem record_has_eight_cells cls w record w' :
  test_expandable cls w = (Ok record, w') ->
  length record = 8 /\ length record = length header.
Proof.
  rewrite test_expandable_eq.
  destruct (construct cls the_user_agent w) as [[driver | e] w1]; [| done].
  unfold try_statement, stmt.
  destruct (test_scenario driver (tick w1)) as [[[] | e] w3].
  - unfold bind, ret.
    destruct (finally_block (started w1) w3) as [[tm | e] w4];
      [| intros H; discriminate H].
    destruct (elapsed_seconds tm w4) as [[[t tm'] | e] w5];
      [| intros H; discriminate H].
    by intros [= <- _].
  - destruct (exc_is_Exception _).
    + unfold except_block, analyse_error, bind, ret, raise, print.
      destruct (last _) as [fr |].
      * destruct (elapsed_seconds (started w1) _) as [[[t tm'] | e2] w5].
        -- cbn [fst snd].
           destruct (finally_block tm' w5) as [[tm | e3] w6];
             [| intros H; discriminate H].
           by intros [= <- _].
        -- destruct (finally_block (started w1) w5) as [[tm | e3] w6];
             intros H; discriminate H.
      * destruct (finally_block (started w1) w3) as [[tm | e3] w6];
          intros H; discriminate H.
    + unfold bind, raise.
      destruct (finally_block (started w1) w3) as [[tm | e3] w6];
        intros H; discriminate H.
Qed.

Lemma record_has_eight_cells_witness :
  let record :=
    [PInt 0; PStr "chrome"; PFloat (357 # 100); PStr "TimeoutException";
     PStr "/usr/lib/python3/site-packages/selenium/webdriver/support/wait.py";
     PInt 95; PStr "until";
     PStr "raise TimeoutException(message, screen, stacktrace)"] in
  length record = 8 /\ length record = length header.
Proof.
  intros record. subst record.
  match goal with
  | |- length ?r = 8 /\ _ =>
      apply (record_has_eight_cells chrome_class (world_of banner_missing_replies) r
               (snd (test_expandable chrome_class (world_of banner_missing_replies))))
  end.
  apply with_snd. vm_compute. reflexivity.
Defined.

(** X25. When no call of the engine raises and the scenario fails,
    [test_expandable] returns a row whose site is the failing statement of
    [test_scenario] itself (the file test_expandable.py, the function
    test_scenario, the line and the text of that statement) and whose error is
    AssertionError at one of the [assert] statements, or AttributeError at one
    of the statements that call a method of a value a wait has returned. *)
Theorem scenario_failure_row cls w driver w1 e w3 :
  construct cls the_user_agent w = (Ok driver, w1) ->
  obedient w ->
  test_scenario driver (tick w1) = (Raise e, w3) ->
  exists t w' f,
    test_expandable cls w =
      (Ok [PInt 0; PStr (browser_tag (cls_kind cls)); PFloat t; PStr (exc_type e);
           PStr (src_dir w +:+ "/" +:+ "test_expandable.py"); PInt (lineno f);
           PStr "test_scenario"; PStr (line f)], w') /\
    exc_tb e = [f] /\
    ((exc_type e = "AssertionError" /\ lineno f ∈ assert_lines) \/
     (exc_type e = "AttributeError" /\ lineno f ∈ method_lines)).
Proof.
  intros Hc Ho Hs.
  pose proof (scenario_world _ _ _ _ _ Hc) as Hw1.
  destruct Hw1 as (Hr1 & _ & Hsrc & _).
  destruct (scenario_end _ _ _ _ Hs) as (Hr3 & _). simpl in Hr3.
  assert (Ho1 : obedient (tick w1)).
  { intros n c. simpl. rewrite Hr1. apply Ho. }
  destruct (asserting_test_scenario (src_dir w) driver (tick w1) e w3)
    as (f & [[-> (Hfile & Hname & Hline)] | [-> (Hfile & Hname & Hline)]]);
    [exact Hsrc | exact Ho1 | exact Hs | |].
  all: rewrite test_expandable_eq, Hc; unfold try_statement, stmt; rewrite Hs.
  all: cbn [through exc_is_Exception exc_tb exc_type AssertionError AttributeError].
  all: rewrite <- (construct_browser _ _ _ _ _ Hc).
  all: assert (Hlast : last (mkFrame (src_dir (tick w1) +:+ "/" +:+ "test_expandable.py")
                               88 "test_expandable" "test_scenario(driver)" :: [f])
                       = Some f) by reflexivity.
  all: destruct (analyse_error_returns _ f w3 Hlast) as (w3' & Ha & Hr3').
  all: destruct (elapsed_seconds_returns (started w1) w3') as (t & tm & w4 & He & Hr4).
  all: assert (Hsafe4 : close_safe w4)
         by (intros n; rewrite Hr4, Hr3', Hr3, Hr1; apply Ho).
  all: destruct (finally_block_returns tm w4 Hsafe4) as (tm' & w5 & Hf & _).
  all: exists t, w5, f.
  all: split; [| split; [reflexivity |]].
  1, 3: unfold except_block, bind;
        cbn [through exc_tb exc_type exc_is_Exception AssertionError AttributeError];
        rewrite Ha, He; simpl; rewrite Hf, Hfile, Hname; reflexivity.
  - left. split; [reflexivity | exact Hline].
  - right. split; [reflexivity | exact Hline].
Qed.

Lemma scenario_failure_row_witness :
  let w := world_of modal_none_replies in
  let e := through (mkFrame "/app/test_expandable.py" 43 "test_scenario"
                      "assert modal_div_element.is_displayed()") AttributeError in
  exists t w' f,
    test_expandable chrome_class w =
      (Ok [PInt 0; PStr (browser_tag (cls_kind chrome_class)); PFloat t;
           PStr (exc_type e);
           PStr (src_dir w +:+ "/" +:+ "test_expandable.py"); PInt (lineno f);
           PStr "test_scenario"; PStr (line f)], w') /\
    exc_tb e = [f] /\
    ((exc_type e = "AssertionError" /\ lineno f ∈ assert_lines) \/
     (exc_type e = "AttributeError" /\ lineno f ∈ method_lines)).
Proof.
  intros w e.
  apply (scenario_failure_row chrome_class w chrome_driver
           (snd (construct chrome_class the_user_agent w)) e
           (snd (test_scenario chrome_driver
                   (tick (snd (construct chrome_class the_user_agent w)))))).
  - run.
  - intros n c. apply modal_none_obeys.
  - run.
Defined.

(** The wait for the modal returns [None]: the row names line 43 and the
    AttributeError of the method looked up on [None]. *)
Example modal_none_row :
  fst (test_expandable chrome_class (world_of modal_none_replies)) =
  Ok [PInt 0; PStr "chrome"; PFloat (357 # 100); PStr "AttributeError";
      PStr "/app/test_expandable.py"; PInt 43; PStr "test_scenario";
      PStr "assert modal_div_element.is_displayed()"].
Proof. vm_compute. reflexivity. Qed.

(** The logo stays after the click: the row names line 51. *)
Example logo_stays_row :
  fst (test_expandable chrome_class (world_of logo_stays_replies)) =
  Ok [PInt 0; PStr "chrome"; PFloat (357 # 100); PStr "AssertionError";
      PStr "/app/test_expandable.py"; PInt 51; PStr "test_scenario";
      PStr "assert not celtra_logo.is_displayed()"].
Proof. vm_compute. reflexivity. Qed.

(** ** The helpers *)

(** X11. [analyse_error] reports the last entry of the traceback, whatever
    stands before it; with [output] false it prints nothing and leaves the
    world as it was, with [output] true it prints the message once. Called
    when no exception is being handled (an empty traceback), it raises
    IndexError. *)
Theorem analyse_error_reports_last_frame tb fr output w :
  analyse_error [] output w = (Raise IndexError, w) /\
  analyse_error (tb ++ [fr]) output w =
    (Ok [PStr (filename fr); PInt (lineno fr); PStr (name fr); PStr (line fr)],
     if output then log (EPrint (failure_message fr)) w else w).
Proof.
  split; [reflexivity |].
  unfold analyse_error. rewrite last_snoc. by destruct output.
Qed.

Section Timer.
Local Open Scope Q_scope.

Lemma round_half_even_nonpos (y : Q) : y <= 0 -> (round_half_even y <= 0)%Z.
Proof.
  intros Hy. unfold round_half_even.
  pose proof (Qfloor_le y) as Hlo. pose proof (Qlt_floor y) as Hhi.
  set (n := Qfloor y) in *.
  assert (Hn1 : inject_Z (n + 1) == inject_Z n + 1)
    by (rewrite inject_Z_plus; reflexivity).
  rewrite Hn1 in Hhi.
  assert (Hn : (n <= 0)%Z).
  { rewrite Zle_Qle. change (inject_Z 0) with 0. lra. }
  destruct (Z.eq_dec n 0%Z) as [H0 | H0].
  - assert (Hn0 : inject_Z n == 0) by (rewrite H0; reflexivity).
    destruct (Qcompare (y - inject_Z n) (1 # 2)) eqn:Hc.
    + apply Qeq_alt in Hc. lra.
    + lia.
    + apply Qgt_alt in Hc. lra.
  - destruct (Qcompare _ _); [destruct (Z.even n) | |]; lia.
Qed.

Lemma py_round2_nonpos (x : Q) : x <= 0 -> py_round2 x <= 0.
Proof.
  intros Hx. rewrite py_round2_hundredths.
  assert (H : (round_half_even (x * 100) <= 0)%Z).
  { apply round_half_even_nonpos. nra. }
  unfold Qle. simpl. lia.
Qed.

(** X12. [stop] returns [round(end_time - start_time, 2)], not the whole
    seconds its setter stores, and from then on the timer is frozen: the
    property gives the same value whatever is stored through the setter,
    without reading the clock and without changing the timer further. *)
Theorem stopped_timer_is_frozen self w :
  Qeq_bool (clock w (nreads w)) 0 = false ->
  exists v self',
    TimeMeasure_stop self w = (Ok (v, self'), tick w) /\
    v = py_round2 (clock w (nreads w) - start_time self) /\
    forall x w2,
      elapsed_seconds (set_elapsed_seconds self' x) w2 = (Ok (v, self'), w2).
Proof.
  intros Hz. destruct self as [t0 t1 el].
  rewrite (stop_eq _ _ _ _ Hz). eexists. eexists.
  split; [reflexivity |]. split; [reflexivity |].
  intros x w2. unfold set_elapsed_seconds. simpl.
  by rewrite (elapsed_seconds_stopped _ _ _ _ Hz).
Qed.

(** X13. While the timer runs every reading of the property takes a new
    reading of the clock: two readings in a row give the time elapsed at
    each of them. *)
Theorem running_timer_reads_the_clock self w :
  Qeq_bool (end_time self) 0 = true ->
  (r1 <- elapsed_seconds self ;;
   r2 <- elapsed_seconds (snd r1) ;;
   ret (fst r1, fst r2))%py w =
  (Ok (py_round2 (clock w (nreads w) - start_time self),
       py_round2 (clock w (S (nreads w)) - start_time self)),
   tick (tick w)).
Proof.
  intros Hz. unfold bind, elapsed_seconds. rewrite Hz. simpl. rewrite Hz.
  reflexivity.
Qed.

(** X14. A timer is not reset by a second [start]: the end of the first
    measure stays, so the property gives the old end minus the new start,
    which is not positive when the clock has not gone back. *)
Theorem restarted_timer_measures_backwards w :
  let t1 := clock w (S (nreads w)) in
  let t2 := clock w (S (S (nreads w))) in
  Qeq_bool t1 0 = false ->
  fst ((r <- TimeMeasure_start TimeMeasure_new ;;
        s <- TimeMeasure_stop (snd r) ;;
        r' <- TimeMeasure_start (snd s) ;;
        v <- elapsed_seconds (snd r') ;;
        ret (fst v))%py w) = Ok (py_round2 (t1 - t2)) /\
  (t1 <= t2 -> py_round2 (t1 - t2) <= 0).
Proof.
  intros t1 t2 Hz. split.
  - unfold bind. rewrite start_eq.
    change (snd (clock w (nreads w), started w)) with (started w).
    unfold started. rewrite (stop_eq _ _ _ (tick w) Hz).
    unfold TimeMeasure_start, logging_function, bind, ret, now. simpl.
    unfold elapsed_seconds. simpl. fold t1. rewrite Hz. reflexivity.
  - intros Hle. apply py_round2_nonpos. lra.
Qed.
End Timer.

Lemma stopped_timer_is_frozen_witness :
  let w := tick (good_world 0) in
  let self := started (good_world 0) in
  exists v self',
    TimeMeasure_stop self w = (Ok (v, self'), tick w) /\
    v = py_round2 (clock w (nreads w) - start_time self) /\
    forall x w2,
      elapsed_seconds (set_elapsed_seconds self' x) w2 = (Ok (v, self'), w2).
Proof.
  intros w self. apply (stopped_timer_is_frozen self w). vm_compute. reflexivity.
Defined.

Lemma running_timer_reads_the_clock_witness :
  let w := tick (good_world 0) in
  let self := started (good_world 0) in
  (r1 <- elapsed_seconds self ;;
   r2 <- elapsed_seconds (snd r1) ;;
   ret (fst r1, fst r2)) w =
  (Ok (py_round2 (clock w (nreads w) - start_time self),
       py_round2 (clock w (S (nreads w)) - start_time self)),
   tick (tick w)).
Proof.
  intros w self. apply (running_timer_reads_the_clock self w). reflexivity.
Defined.

Lemma restarted_timer_measures_backwards_witness :
  let w := good_world 0 in
  let t1 := clock w (S (nreads w)) in
  let t2 := clock w (S (S (nreads w))) in
  fst ((r <- TimeMeasure_start TimeMeasure_new ;;
        s <- TimeMeasure_stop (snd r) ;;
        r' <- TimeMeasure_start (snd s) ;;
        v <- elapsed_seconds (snd r') ;;
        ret (fst v)) w) = Ok (py_round2 (t1 - t2)) /\
  ((t1 <= t2)%Q -> (py_round2 (t1 - t2) <= 0)%Q).
Proof.
  intros w t1 t2. apply (restarted_timer_measures_backwards w).
  vm_compute. reflexivity.
Defined.

(** After start, stop and start again on the steady clock: -3.57 s. *)
Example restarted_timer_on_steady_clock :
  fst ((r <- TimeMeasure_start TimeMeasure_new ;;
        s <- TimeMeasure_stop (snd r) ;;
        r' <- TimeMeasure_start (snd s) ;;
        v <- elapsed_seconds (snd r') ;;
        ret (fst v)) (good_world 0)) = Ok (- (357 # 100))%Q.
Proof. vm_compute. reflexivity. Qed.

Section TimeString.
Local Open Scope Q_scope.

Lemma whole_microseconds (n : Z) (f : Q) :
  0 <= f -> f < 1 - (1 # 2000000) ->
  let us := round_half_even ((inject_Z n + f) * 1000000) in
  (n * 1000000 <= us <= n * 1000000 + 999999)%Z.
Proof.
  intros H0 H1 us.
  destruct (round_half_even_bounds ((inject_Z n + f) * 1000000)) as [Hlo Hhi].
  fold us in Hlo, Hhi.
  assert (HN : inject_Z (n * 1000000) == inject_Z n * 1000000)
    by (rewrite inject_Z_mult; reflexivity).
  split.
  - apply Z.lt_pred_le. rewrite Zlt_Qlt. unfold Z.pred.
    rewrite inject_Z_plus, HN. change (inject_Z (-1)) with (-1). nra.
  - apply Z.lt_succ_r. rewrite Zlt_Qlt. unfold Z.succ.
    rewrite !inject_Z_plus, HN.
    change (inject_Z 999999) with 999999. change (inject_Z 1) with 1. nra.
Qed.

(** X15. [seconds_to_time_string] chops the fraction of a second, it never
    rounds up: a time of [n] whole seconds and a fraction below 0.9999995
    has the text of [n] seconds. *)
Theorem seconds_to_time_string_chops (n : Z) (f : Q) :
  0 <= f -> f < 1 - (1 # 2000000) ->
  seconds_to_time_string (inject_Z n + f) = seconds_to_time_string (inject_Z n).
Proof.
  intros H0 H1.
  pose proof (whole_microseconds n f H0 H1) as Hus.
  assert (Hus0 : (n * 1000000 <= round_half_even ((inject_Z n + 0) * 1000000)
                  <= n * 1000000 + 999999)%Z)
    by (apply whole_microseconds; lra).
  assert (Heq0 : round_half_even ((inject_Z n + 0) * 1000000)
                 = round_half_even (inject_Z n * 1000000)).
  { unfold round_half_even.
    assert (Hq : (inject_Z n + 0) * 1000000 == inject_Z n * 1000000) by ring.
    rewrite (Qfloor_comp _ _ Hq). by rewrite Hq. }
  rewrite Heq0 in Hus0. cbv zeta in Hus.
  unfold seconds_to_time_string. cbv zeta.
  set (us := round_half_even ((inject_Z n + f) * 1000000)) in *.
  set (us0 := round_half_even (inject_Z n * 1000000)) in *.
  assert (Hd : (us / 86400000000 = us0 / 86400000000)%Z)
    by (Z.div_mod_to_equations; lia).
  assert (Hs : ((us mod 86400000000) / 1000000 = (us0 mod 86400000000) / 1000000)%Z)
    by (Z.div_mod_to_equations; lia).
  rewrite Hd, Hs. reflexivity.
Qed.
End TimeString.

Lemma seconds_to_time_string_chops_witness :
  seconds_to_time_string (inject_Z 59 + (999 # 1000)) = seconds_to_time_string (inject_Z 59).
Proof.
  apply (seconds_to_time_string_chops 59 (999 # 1000)).
  - vm_compute. discriminate.
  - vm_compute. reflexivity.
Defined.

Example seconds_to_time_string_almost_a_minute :
  seconds_to_time_string (inject_Z 59 + (999 # 1000)) = "0:00:59".
Proof. vm_compute. reflexivity. Qed.

(** ** The result log, further *)

(** X16. [create_csv_file] twice is [create_csv_file] once: the header of
    the second call is ignored, whatever it is. *)
Theorem create_csv_file_twice file_path hd1 hd2 (fs : Files) :
  create_csv_file file_path hd2 (create_csv_file file_path hd1 fs) =
  create_csv_file file_path hd1 fs.
Proof.
  apply create_csv_file_present. rewrite create_csv_file_lookup. eauto.
Qed.

Lemma writerows_only_appends file_path data old (fs : Files) :
  fs !! file_path = Some old ->
  exists rows, snd (writerows file_path data fs) = <[file_path := old ++ rows]> fs.
Proof.
  revert old fs. induction data as [|v data IH]; intros old fs Hold; simpl.
  - exists []. rewrite app_nil_r. by rewrite insert_id.
  - destruct (as_row v) as [row | e]; simpl.
    + destruct (IH (old ++ [row]) (writerow file_path row fs)) as [rows Hrows].
      { unfold writerow. rewrite Hold. simpl. by rewrite lookup_insert_eq. }
      exists (row :: rows). rewrite Hrows. unfold writerow. rewrite Hold. simpl.
      rewrite insert_insert_eq. by rewrite <- app_assoc.
    + exists []. rewrite app_nil_r. by rewrite insert_id.
Qed.

Lemma append_leaves_file file_path data (fs : Files) :
  is_Some (snd (append_to_csv_file file_path data fs) !! file_path).
Proof.
  unfold append_to_csv_file.
  assert (Hopen : open_append file_path fs !! file_path
                  = Some (default [] (fs !! file_path))).
  { unfold open_append. by rewrite lookup_insert_eq. }
  destruct data as [|v data]; [simpl; eauto |].
  assert (Hrow : is_Some (snd (Ok tt, writerow file_path (v :: data)
                                        (open_append file_path fs)) !! file_path)).
  { simpl. unfold writerow. rewrite lookup_insert_eq. eauto. }
  destruct v; try exact Hrow.
  destruct (writerows_only_appends file_path (PList l :: data) _ _ Hopen) as [rows ->].
  rewrite lookup_insert_eq. eauto.
Qed.

(** X17. [append_to_csv_file] only appends, whatever it is given and
    whether it returns or raises: afterwards the file exists and holds the
    rows it had (none if it was absent) followed by the new ones, and every
    other file is as it was. *)
Theorem append_to_csv_file_only_appends file_path data (fs : Files) :
  exists rows,
    snd (append_to_csv_file file_path data fs) =
      <[file_path := default [] (fs !! file_path) ++ rows]> fs.
Proof.
  unfold append_to_csv_file.
  assert (Hopen : open_append file_path fs !! file_path
                  = Some (default [] (fs !! file_path))).
  { unfold open_append. by rewrite lookup_insert_eq. }
  assert (Hins : forall rows,
             <[file_path := default [] (fs !! file_path) ++ rows]> (open_append file_path fs)
             = <[file_path := default [] (fs !! file_path) ++ rows]> fs).
  { intros rows. unfold open_append. by rewrite insert_insert_eq. }
  destruct data as [|v data].
  - exists []. simpl. rewrite app_nil_r. reflexivity.
  - assert (Hrow : exists rows,
               snd (Ok tt, writerow file_path (v :: data) (open_append file_path fs))
               = <[file_path := default [] (fs !! file_path) ++ rows]> fs).
    { exists [v :: data]. simpl. unfold writerow. rewrite Hopen. simpl. apply Hins. }
    destruct v; try exact Hrow.
    destruct (writerows_only_appends file_path (PList l :: data) _ _ Hopen) as [rows Hrows].
    exists rows. rewrite Hrows. apply Hins.
Qed.

(** X18. Once a file has been appended to, [create_csv_file] writes no
    header into it: a log that is appended to before it is created never
    gets its header. *)
Theorem create_after_append_writes_no_header file_path data hd (fs : Files) :
  create_csv_file file_path hd (snd (append_to_csv_file file_path data fs)) =
  snd (append_to_csv_file file_path data fs).
Proof.
  apply create_csv_file_present, append_leaves_file.
Qed.

(** X19. Data whose first element is not a list is one row: it is appended
    whole, as a single row, and the file is created when absent. *)
Theorem append_single_row file_path v data (fs : Files) :
  (forall l, v <> PList l) ->
  append_to_csv_file file_path (v :: data) fs =
  (Ok tt, <[file_path := default [] (fs !! file_path) ++ [v :: data]]> fs).
Proof.
  intros Hv. unfold append_to_csv_file.
  assert (H : (Ok tt, writerow file_path (v :: data) (open_append file_path fs)) =
              (Ok tt, <[file_path := default [] (fs !! file_path) ++ [v :: data]]> fs)).
  { unfold writerow, open_append. rewrite lookup_insert_eq. simpl.
    by rewrite insert_insert_eq. }
  destruct v; try exact H. by destruct (Hv l).
Qed.

Lemma append_single_row_witness :
  append_to_csv_file "log.csv" [PInt 1; PStr "chrome"] ∅ =
  (Ok tt, <["log.csv" := default [] ((∅ : Files) !! "log.csv") ++ [[PInt 1; PStr "chrome"]]]> ∅).
Proof.
  apply (append_single_row "log.csv" (PInt 1) [PStr "chrome"] ∅).
  intros l. discriminate.
Defined.

Lemma writerows_prefix file_path (rows : list Row) rest old (fs : Files) :
  fs !! file_path = Some old ->
  writerows file_path ((PList <$> rows) ++ rest) fs =
  writerows file_path rest (<[file_path := old ++ rows]> fs).
Proof.
  revert old fs. induction rows as [|row rows IH]; intros old fs Hold; simpl.
  - rewrite app_nil_r. by rewrite insert_id.
  - rewrite (IH (old ++ [row])).
    + unfold writerow. rewrite Hold. simpl.
      rewrite insert_insert_eq. by rewrite <- app_assoc.
    + unfold writerow. rewrite Hold. simpl. by rewrite lookup_insert_eq.
Qed.

(** X20. A batch is written row by row, in order, until an element that is
    neither a list nor a string: the csv error is raised there, the rows
    before it stay in the file, the elements after it are not looked at.
    Without such an element the whole batch is appended. *)
Theorem append_batch_stops_at_bad_element file_path row (rows : list Row) bad more
    (fs : Files) :
  as_row bad = Raise csv_Error ->
  append_to_csv_file file_path (PList row :: (PList <$> rows) ++ bad :: more) fs =
    (Raise csv_Error,
     <[file_path := default [] (fs !! file_path) ++ row :: rows]> fs) /\
  append_to_csv_file file_path (PList row :: (PList <$> rows)) fs =
    (Ok tt, <[file_path := default [] (fs !! file_path) ++ row :: rows]> fs).
Proof.
  intros Hbad. unfold append_to_csv_file.
  assert (Hopen : open_append file_path fs !! file_path
                  = Some (default [] (fs !! file_path))).
  { unfold open_append. by rewrite lookup_insert_eq. }
  split.
  - change (PList row :: (PList <$> rows) ++ bad :: more)
      with ((PList <$> (row :: rows)) ++ bad :: more).
    rewrite (writerows_prefix _ (row :: rows) _ _ _ Hopen). simpl. rewrite Hbad.
    unfold open_append. by rewrite insert_insert_eq.
  - replace (PList row :: (PList <$> rows))
      with ((PList <$> (row :: rows)) ++ []) by (simpl; by rewrite app_nil_r).
    rewrite (writerows_prefix _ (row :: rows) _ _ _ Hopen). simpl.
    unfold open_append. by rewrite insert_insert_eq.
Qed.

Lemma append_batch_stops_at_bad_element_witness :
  append_to_csv_file "log.csv"
    (PList [PInt 1] :: (PList <$> [[PInt 2]]) ++ PInt 3 :: [PList [PInt 4]]) ∅ =
    (Raise csv_Error,
     <["log.csv" := default [] ((∅ : Files) !! "log.csv") ++ [PInt 1] :: [[PInt 2]]]> ∅) /\
  append_to_csv_file "log.csv" (PList [PInt 1] :: (PList <$> [[PInt 2]])) ∅ =
    (Ok tt, <["log.csv" := default [] ((∅ : Files) !! "log.csv") ++ [PInt 1] :: [[PInt 2]]]> ∅).
Proof.
  apply (append_batch_stops_at_bad_element "log.csv" [PInt 1] [[PInt 2]] (PInt 3)
           [PList [PInt 4]] ∅).
  reflexivity.
Defined.

(** ** The harness, further *)

(** X21. A repeat count that is zero or negative gives no iteration:
    [main] makes sure the log exists and returns. *)
Theorem main_without_iteration h ds (N : Z) (fs : Files) :
  (N <= 0)%Z ->
  main h ds N fs = Some (Ok tt, create_csv_file (log_filename h) header fs).
Proof.
  intros HN. unfold main. replace (Z.to_nat N) with 0 by lia. reflexivity.
Qed.

Lemma main_without_iteration_witness :
  main good_harness two_drivers (-3) ∅ =
  Some (Ok tt, create_csv_file (log_filename good_harness) header ∅).
Proof. apply (main_without_iteration good_harness two_drivers (-3) ∅). lia. Defined.

(** X22. Without a registered driver class a run of one iteration or more
    raises IndexError in its first iteration, when the empty batch is
    appended; the log has been created by then and gets no row. *)
Theorem main_without_drivers h (N : Z) (fs : Files) :
  (1 <= N)%Z ->
  main h [] N fs =
  Some (Raise IndexError, create_csv_file (log_filename h) header fs).
Proof.
  intros HN. unfold main.
  destruct (Z.to_nat N) as [|n] eqn:Hn; [lia |].
  cbn [main_loop]. rewrite executor_map_sequential. simpl.
  unfold append_to_csv_file, open_append.
  rewrite create_csv_file_lookup. simpl.
  do 2 f_equal. apply insert_id. apply create_csv_file_lookup.
Qed.

Lemma main_without_drivers_witness :
  main good_harness [] 2 ∅ =
  Some (Raise IndexError, create_csv_file (log_filename good_harness) header ∅).
Proof. apply (main_without_drivers good_harness 2 ∅). lia. Defined.









(** Three iterations asked for, the second fails: one batch in the log. *)
Example one_batch_before_the_failure :
  match main failing_harness two_drivers 3 ∅ with
  | Some (r, fs) => (r, length <$> fs !! log_filename failing_harness)
  | None => (Ok tt, None)
  end = (Raise (mkExn "WebDriverException" true []), Some 3).
Proof. vm_compute. reflexivity. Qed.
